(** * creditCardParser: the datapoint extractor of [parsers.py]

    A shallow embedding of [extract_datapoints_from_text], of the functions
    that read the first page of a PDF for it, and of the part of Python's
    [str] and [re] libraries it relies on, followed by their properties.

    Modelling choices.
    - A Python [str] is a list of code points ([N]); offsets, windows and
      match positions count code points, as in Python.
    - Whitespace ([str.strip], [str.split], the regex class [\s]) and line
      boundaries ([str.splitlines]) are Python's full sets.  Decimal digits
      ([\d], [int]), word characters ([\w], [\b]) and case mapping
      ([str.lower], [re.I]) are the ASCII ones: code points above 127 are
      caseless, non-digit, non-word symbols here.
    - Regular expressions are syntax trees interpreted by a backtracking
      matcher (leftmost match, ordered alternation, greedy repetition),
      which is the semantics of [re].  Its loops take fuel computed from
      the subject; the last section shows that more fuel changes nothing.
    - The extractor returns [Ok r] or [Raise e]: [int] and the reading of a
      group that took no part in its match are the operations that can
      raise.
    - The five steps of the source are five functions, called in the order
      of the source; each returns the value its step stores in [out].
    - [extract_first_page_text] and [parse_pdf_page_one_and_extract] take
      what the PDF and OCR libraries do as a [World], and return what they
      print besides their result. *)

From Stdlib Require Import List NArith ZArith QArith Arith Bool String Ascii Lia.
Import ListNotations.
Local Open Scope N_scope.
Local Open Scope list_scope.

Set Implicit Arguments.

(** ** Characters and strings *)

Definition char := N.
Definition str := list char.

(** An ASCII literal of the source as a list of code points. *)
Definition lit (x : string) : str := map N_of_ascii (list_ascii_of_string x).

Definition in_range (lo hi c : char) : bool := (lo <=? c) && (c <=? hi).
Definition is_digit (c : char) : bool := in_range 48 57 c.
Definition is_upper (c : char) : bool := in_range 65 90 c.
Definition is_lower (c : char) : bool := in_range 97 122 c.
Definition is_word (c : char) : bool :=
  is_digit c || is_upper c || is_lower c || (c =? 95).

(** The code points for which [str.isspace] holds. *)
Definition whitespace : list char :=
  [9; 10; 11; 12; 13; 28; 29; 30; 31; 32; 133; 160; 5760;
   8192; 8193; 8194; 8195; 8196; 8197; 8198; 8199; 8200; 8201; 8202;
   8232; 8233; 8239; 8287; 12288].
Definition is_space (c : char) : bool := existsb (N.eqb c) whitespace.

(** The line boundaries of [str.splitlines] (besides the pair CR LF). *)
Definition linebreaks : list char := [10; 11; 12; 13; 28; 29; 30; 133; 8232; 8233].
Definition is_linebreak (c : char) : bool := existsb (N.eqb c) linebreaks.

Definition lower_char (c : char) : char := if is_upper c then c + 32 else c.
Definition upper_char (c : char) : char := if is_lower c then c - 32 else c.

Module PyStr.

(** [s.lower()] *)
Definition lower (s : str) : str := map lower_char s.

(** [s[a:b]] for [0 <= a <= b] *)
Definition slice (s : str) (a b : nat) : str := firstn (b - a) (skipn a s).

Fixpoint lstrip (s : str) : str :=
  match s with
  | c :: t => if is_space c then lstrip t else s
  | [] => []
  end.
Definition rstrip (s : str) : str := rev (lstrip (rev s)).
(** [s.strip()] *)
Definition strip (s : str) : str := rstrip (lstrip s).

(** [s.replace(c, '')] for a one-character [c] *)
Definition remove_char (c : char) (s : str) : str :=
  filter (fun x => negb (x =? c)) s.

Definition flush (cur : str) (acc : list str) : list str :=
  match cur with [] => acc | _ => rev cur :: acc end.

Fixpoint split_aux (cur : str) (s : str) : list str :=
  match s with
  | [] => flush cur []
  | c :: t => if is_space c then flush cur (split_aux [] t)
              else split_aux (c :: cur) t
  end.
(** [s.split()]: the maximal runs of non-whitespace characters *)
Definition split (s : str) : list str := split_aux [] s.

Fixpoint splitlines_aux (cur : str) (s : str) : list str :=
  match s with
  | [] => flush cur []
  | c :: t =>
      if c =? 13 then
        match t with
        | 10 :: t' => rev cur :: splitlines_aux [] t'
        | _ => rev cur :: splitlines_aux [] t
        end
      else if is_linebreak c then rev cur :: splitlines_aux [] t
      else splitlines_aux (c :: cur) t
  end.
(** [s.splitlines()] *)
Definition splitlines (s : str) : list str := splitlines_aux [] s.

(** Truth value of a string or of [None]. *)
Definition truthy (o : option str) : bool :=
  match o with Some (_ :: _) => true | _ => false end.

Fixpoint digits_value (acc : Z) (s : str) : option Z :=
  match s with
  | [] => Some acc
  | c :: t => if is_digit c then digits_value (10 * acc + Z.of_N (c - 48))%Z t
              else None
  end.
(** [int(s)] on an unsigned digit string; [None] stands for [ValueError]. *)
Definition int (s : str) : option Z :=
  match s with [] => None | _ => digits_value 0%Z s end.

End PyStr.

(** ** Regular expressions, as Python's [re] matches them *)

Module Re.

Inductive citem : Type :=
| CChar (c : char)
| CRange (lo hi : char)
| CDigit
| CSpace
| CWord.

Inductive regex : Type :=
| Eps
| Chr (c : char)
| Set_ (items : list citem)
| Cat (a b : regex)
| Alt (a b : regex)
| Rep (lo : nat) (hi : option nat) (a : regex)
| Grp (i : nat) (a : regex)
| WordB
| Bos
| Eos.

(** A position inside the subject: the character before it, the characters
    from it on, and how many characters the current attempt has consumed. *)
Record state : Type := mkState { prev : option char; rest : str; taken : nat }.

Definition caps := list (nat * str).

Fixpoint lookup (i : nat) (cs : caps) : option str :=
  match cs with
  | [] => None
  | (j, s) :: t => if Nat.eqb i j then Some s else lookup i t
  end.

Definition item_has (it : citem) (c : char) : bool :=
  match it with
  | CChar x => c =? x
  | CRange lo hi => in_range lo hi c
  | CDigit => is_digit c
  | CSpace => is_space c
  | CWord => is_word c
  end.

Definition set_has (items : list citem) (c : char) : bool :=
  existsb (fun it => item_has it c) items.

(** [ic] is the flag [re.I]. *)
Definition chr_eq (ic : bool) (p c : char) : bool :=
  if ic then lower_char c =? lower_char p else c =? p.

Definition set_eq (ic : bool) (items : list citem) (c : char) : bool :=
  if ic then set_has items c || set_has items (lower_char c) || set_has items (upper_char c)
  else set_has items c.

Definition advance (c : char) (tl : str) (st : state) : state :=
  mkState (Some c) tl (S (taken st)).

Definition word_before (st : state) : bool :=
  match prev st with Some c => is_word c | None => false end.
Definition word_after (st : state) : bool :=
  match rest st with c :: _ => is_word c | [] => false end.
(** [\b] *)
Definition at_boundary (st : state) : bool := xorb (word_before st) (word_after st).

Definition at_start (st : state) : bool :=
  match prev st with None => true | Some _ => false end.
(** [$] without [re.M]: the end, or just before a final newline *)
Definition at_end (st : state) : bool :=
  match rest st with [] => true | [10] => true | _ => false end.

Definition below (n : nat) (hi : option nat) : bool :=
  match hi with None => true | Some h => Nat.ltb n h end.

Definition answer : Type := state * caps.
Definition cont : Type := state -> caps -> option answer.

Definition or_else (x : option answer) (y : option answer) : option answer :=
  match x with Some r => Some r | None => y end.

(** The loop of a greedy repetition [a{lo,hi}] after [n] iterations: one
    more iteration of [body] if the bound allows it, otherwise (or when
    what follows fails after it) the continuation.  An iteration that
    consumes nothing is not taken; no pattern of the source has one. *)
Fixpoint rep_loop (body : state -> caps -> cont -> option answer)
  (lo : nat) (hi : option nat) (k : cont) (fuel n : nat) (st : state) (cs : caps)
  {struct fuel} : option answer :=
  match fuel with
  | O => None
  | S fuel' =>
      or_else
        (if below n hi then
           body st cs
             (fun st1 cs1 =>
                if Nat.ltb (taken st) (taken st1)
                then rep_loop body lo hi k fuel' (S n) st1 cs1 else None)
         else None)
        (if Nat.leb lo n then k st cs else None)
  end.

(** The backtracking matcher in continuation-passing style: [k] is what
    has to match after [r]. *)
Fixpoint rmatch (ic : bool) (r : regex) (st : state) (cs : caps) (k : cont)
  {struct r} : option answer :=
  match r with
  | Eps => k st cs
  | Chr p =>
      match rest st with
      | c :: tl => if chr_eq ic p c then k (advance c tl st) cs else None
      | [] => None
      end
  | Set_ items =>
      match rest st with
      | c :: tl => if set_eq ic items c then k (advance c tl st) cs else None
      | [] => None
      end
  | Cat a b => rmatch ic a st cs (fun st1 cs1 => rmatch ic b st1 cs1 k)
  | Alt a b => or_else (rmatch ic a st cs k) (rmatch ic b st cs k)
  | Rep lo hi a =>
      rep_loop (rmatch ic a) lo hi k (S (List.length (rest st))) O st cs
  | Grp i a =>
      rmatch ic a st cs
        (fun st1 cs1 =>
           k st1 ((i, firstn (taken st1 - taken st) (rest st)) :: cs1))
  | WordB => if at_boundary st then k st cs else None
  | Bos => if at_start st then k st cs else None
  | Eos => if at_end st then k st cs else None
  end.

(** A match object: [m.start()], the state at [m.end()], [m.group(0)] and
    the numbered groups. *)
Record mobj : Type := mkMatch {
  m_start : nat;
  m_tail : state;
  m_whole : str;
  m_caps : caps
}.

Definition m_end (m : mobj) : nat := (m_start m + taken (m_tail m))%nat.

(** [m.group(i)]; [None] when the group took no part in the match. *)
Definition group (m : mobj) (i : nat) : option str :=
  match i with O => Some (m_whole m) | _ => lookup i (m_caps m) end.

(** [re.match]-like attempt at one position of the subject. *)
Definition match_here (ic : bool) (r : regex) (p : option char) (s : str)
  (at_ : nat) : option mobj :=
  match rmatch ic r (mkState p s O) [] (fun st cs => Some (st, cs)) with
  | Some (st, cs) => Some (mkMatch at_ st (firstn (taken st) s) cs)
  | None => None
  end.

(** Leftmost match from a position on. *)
Fixpoint search_from (ic : bool) (r : regex) (p : option char) (s : str)
  (at_ : nat) : option mobj :=
  match match_here ic r p s at_ with
  | Some m => Some m
  | None =>
      match s with
      | [] => None
      | c :: tl => search_from ic r (Some c) tl (S at_)
      end
  end.

(** [re.search(r, s)] and [re.match(r, s)] *)
Definition search (ic : bool) (r : regex) (s : str) : option mobj :=
  search_from ic r None s O.
Definition match_ (ic : bool) (r : regex) (s : str) : option mobj :=
  match_here ic r None s O.

(** [re.finditer(r, s)]: the successive non-overlapping matches.  After an
    empty match the scan moves one character on. *)
Fixpoint finditer_from (fuel : nat) (ic : bool) (r : regex) (p : option char)
  (s : str) (at_ : nat) : list mobj :=
  match fuel with
  | O => []
  | S fuel' =>
      match search_from ic r p s at_ with
      | None => []
      | Some m =>
          let st := m_tail m in
          m :: match taken st, rest st with
               | O, [] => []
               | O, c :: tl => finditer_from fuel' ic r (Some c) tl (S (m_end m))
               | S _, tl => finditer_from fuel' ic r (prev st) tl (m_end m)
               end
      end
  end.

Definition finditer (ic : bool) (r : regex) (s : str) : list mobj :=
  finditer_from (S (List.length s)) ic r None s O.

(** *** Pattern syntax *)

Fixpoint chars (s : str) : regex :=
  match s with
  | [] => Eps
  | [c] => Chr c
  | c :: t => Cat (Chr c) (chars t)
  end.
(** A literal word of a pattern. *)
Definition word (x : string) : regex := chars (lit x).

Definition star (a : regex) : regex := Rep 0 None a.
Definition plus (a : regex) : regex := Rep 1 None a.
Definition opt (a : regex) : regex := Rep 0 (Some 1%nat) a.
Definition times (lo hi : nat) (a : regex) : regex := Rep lo (Some hi) a.
Definition digit : regex := Set_ [CDigit].
Definition space : regex := Set_ [CSpace].
Definition one_of (x : string) : regex := Set_ (map CChar (lit x)).

End Re.

Import Re.

Declare Scope re_scope.
Delimit Scope re_scope with re.
Bind Scope re_scope with regex.
Infix "+>" := Cat (at level 60, right associativity) : re_scope.
Infix "<|>" := Alt (at level 70, right associativity) : re_scope.

Definition ch (a : ascii) : regex := Chr (N_of_ascii a).
Definition cc (a : ascii) : citem := CChar (N_of_ascii a).
Definition cr (a b : ascii) : citem := CRange (N_of_ascii a) (N_of_ascii b).
Arguments ch a%_char.
Arguments cc a%_char.
Arguments cr (a b)%_char.

(** ** Exceptions *)

Inductive exn : Type := ValueError | AttributeError.

Inductive result (A : Type) : Type :=
| Ok (a : A)
| Raise (e : exn).
Arguments Ok {A} a.
Arguments Raise {A} e.

Definition bind {A B : Type} (x : result A) (f : A -> result B) : result B :=
  match x with Ok a => f a | Raise e => Raise e end.

Notation "x <- e1 ;; e2" := (bind e1 (fun x => e2))
  (at level 61, e1 at next level, right associativity).

(** ** The pattern vocabulary of [parsers.py] *)

Local Open Scope re_scope.

(** [[0-9]] *)
Definition d09 : regex := Set_ [cr "0" "9"].

(** [\.\d+] *)
Definition fraction : regex := ch "." +> plus digit.

(** [Rs\.?|INR|] rupee sign (code point 8377) *)
Definition currency : regex := word "Rs" +> opt (ch ".") <|> word "INR" <|> Chr 8377.

(** [[0-9]{1,3}(?:,[0-9]{3})*(?:\.\d+)?|\d+(?:\.\d+)?] *)
Definition numeral : regex :=
  times 1 3 d09 +> star (ch "," +> times 3 3 d09) +> opt fraction
  <|> plus digit +> opt fraction.

(** An optional currency marker, [\s*] and the numeral as group 1. *)
Definition AMOUNT_RE : regex := opt currency +> star space +> Grp 1 numeral.

(** [Jan|Feb|Mar|Apr|May|Jun|Jul|Aug|Sep|Sept|Oct|Nov|Dec] *)
Definition month : regex :=
  word "Jan" <|> word "Feb" <|> word "Mar" <|> word "Apr" <|> word "May" <|>
  word "Jun" <|> word "Jul" <|> word "Aug" <|> word "Sep" <|> word "Sept" <|>
  word "Oct" <|> word "Nov" <|> word "Dec".

(** [\d{1,2}[/-]\d{1,2}[/-]\d{2,4}] *)
Definition numeric_date : regex :=
  times 1 2 digit +> one_of "/-" +> times 1 2 digit +> one_of "/-" +> times 2 4 digit.

(** The three alternatives of [DATE_RE], compiled with [re.I]. *)
Definition DATE_RE : regex :=
  Grp 1 (WordB +> numeric_date +> WordB
         <|> WordB +> (times 1 2 digit +> plus space +> month +>
                       star (Set_ [cr "a" "z"]) +> opt (one_of ".,") +>
                       plus space +> times 2 4 digit) +> WordB
         <|> WordB +> month +> star (Set_ [cr "a" "z"]) +> plus space +>
             times 1 2 digit +> opt (one_of ",") +> plus space +>
             times 2 4 digit +> WordB).

(** [def find_amount_near(text, start_idx=0, search_window=200)] *)
Definition find_amount_near (text : str) (start_idx search_window : nat) : option str :=
  let window := PyStr.slice text start_idx (start_idx + search_window) in
  match search false AMOUNT_RE window with
  | Some m => group m 1
  | None => None
  end.

(** *** Card number *)

(** The loose pattern of [masked_patterns]: an optional label [card],
    [\s*no] or [number], any of [:\s]; then the group [[0-9\*xX\-\s]{6,}].
    The source lists it and uses it nowhere. *)
Definition masked_patterns : list regex :=
  [ opt (word "card" +> (star space +> word "no" <|> word "number") +>
         star (Set_ [cc ":"; CSpace])) +>
    Grp 1 (Rep 6 None (Set_ [cr "0" "9"; cc "*"; cc "x"; cc "X"; cc "-"; CSpace])) ].

(** [[*Xx0-9\s\-]{0,20}(\d{4})] *)
Definition masked_tail_re : regex :=
  times 0 20 (Set_ [cc "*"; cc "X"; cc "x"; cr "0" "9"; CSpace; cc "-"]) +>
  Grp 2 (times 4 4 digit).

(** [([*Xx]{2,}[*Xx0-9\s\-]{0,20}(\d{4}))] *)
Definition masked_re : regex :=
  Grp 1 (Rep 2 None (one_of "*Xx") +> masked_tail_re).

(** [(\d{4})] and [\d{4}] *)
Definition four_digits_group : regex := Grp 1 (times 4 4 digit).
Definition four_digits : regex := times 4 4 digit.

(** [card\b|card no|card number|card account] *)
Definition card_re : regex :=
  word "card" +> WordB <|> word "card no" <|> word "card number" <|> word "card account".

Definition abs_diff (a b : nat) : nat := ((a - b) + (b - a))%nat.

(** One round of the inner loop over the four-digit runs: keep the closest. *)
Definition closer (pos : nat) (acc : option (str * nat)) (m2 : mobj)
  : option (str * nat) :=
  let dist := abs_diff (m_start m2) pos in
  match acc with
  | None => Some (m_whole m2, dist)
  | Some (_, best_dist) =>
      if Nat.ltb dist best_dist then Some (m_whole m2, dist) else acc
  end.

Definition nearest_to_cards (text : str) (card_positions : list nat) : option str :=
  option_map fst
    (fold_left
       (fun acc pos => fold_left (closer pos) (finditer false four_digits text) acc)
       card_positions None).

Definition is_year (v : Z) : bool := (1900 <=? v)%Z && (v <=? 2099)%Z.

(** The four-digit runs that are not years, with their offsets. *)
Fixpoint non_years (ms : list mobj) : result (list (nat * str)) :=
  match ms with
  | [] => Ok []
  | m2 :: ms' =>
      let d := m_whole m2 in
      match PyStr.int d with
      | None => Raise ValueError
      | Some v =>
          cands <- non_years ms' ;;
          Ok (if negb (is_year v) then (m_start m2, d) :: cands else cands)
      end
  end.

(** Step 1 of the source: the value of [possible_last4]. *)
Definition possible_last4 (text lower : str) : result (option str) :=
  match search false masked_re text with
  | Some m => Ok (group m 2)
  | None =>
      let all_four := map (fun m => group m 1) (finditer false four_digits_group text) in
      match all_four with
      | [] => Ok None
      | _ :: _ =>
          let card_positions := map m_start (finditer false card_re lower) in
          match card_positions with
          | _ :: _ => Ok (nearest_to_cards text card_positions)
          | [] =>
              cands <- non_years (finditer false four_digits text) ;;
              Ok (match cands with
                  | [] => None
                  | c :: _ => Some (snd c)
                  end)
          end
      end
  end.

Definition find_card_last4 (text lower : str) : result (option str) :=
  p <- possible_last4 text lower ;;
  Ok (if PyStr.truthy p then option_map PyStr.strip p else None).

(** *** Total amount due *)

Definition spaces : regex := star space.

(** The first keyword: [total\s*], an optional [amount\s*], [due]. *)
Definition total_due_re : regex :=
  word "total" +> spaces +> opt (word "amount" +> spaces) +> word "due".

Definition total_keywords : list regex :=
  [ total_due_re;
    (* total\s*dues *)
    word "total" +> spaces +> word "dues";
    (* total\s*payment\s*due *)
    word "total" +> spaces +> word "payment" +> spaces +> word "due";
    (* your\s*total\s*amount\s*due *)
    word "your" +> spaces +> word "total" +> spaces +> word "amount" +> spaces +> word "due";
    (* total\s*dues\s*[:\-]? *)
    word "total" +> spaces +> word "dues" +> spaces +> opt (one_of ":-");
    (* total\s*amount\s*payable *)
    word "total" +> spaces +> word "amount" +> spaces +> word "payable";
    (* total\s*payment *)
    word "total" +> spaces +> word "payment";
    (* total\s*d(ue|ues)\b *)
    word "total" +> spaces +> ch "d" +> Grp 1 (word "ue" <|> word "ues") +> WordB ].

(** [amt.replace(',', '')] *)
Definition clean_amount (amt : str) : str := PyStr.remove_char 44 amt.

(** The loop over the occurrences of one keyword: the amount stored on
    [break], if any. *)
Fixpoint total_inner (lower : str) (ms : list mobj) : option str :=
  match ms with
  | [] => None
  | m :: ms' =>
      let amt := find_amount_near lower (m_end m) 200 in
      if PyStr.truthy amt then option_map clean_amount amt
      else total_inner lower ms'
  end.

Fixpoint total_outer (lower : str) (kws : list regex) : option str :=
  match kws with
  | [] => None
  | kw :: kws' =>
      match total_inner lower (finditer false kw lower) with
      | Some a => Some a
      | None => total_outer lower kws'
      end
  end.

(** [(total[\s\w]{0,20}due|total[\s\w]{0,20}dues)] *)
Definition total_fallback_re : regex :=
  Grp 1 (word "total" +> times 0 20 (Set_ [CSpace; CWord]) +> word "due"
         <|> word "total" +> times 0 20 (Set_ [CSpace; CWord]) +> word "dues").

Fixpoint total_fallback (text : str) (ms : list mobj) : option str :=
  match ms with
  | [] => None
  | m :: ms' =>
      let amt := find_amount_near text (m_start m) 300 in
      if PyStr.truthy amt then option_map clean_amount amt
      else total_fallback text ms'
  end.

(** Step 2 of the source: the final value of [out["total_amount_due"]]. *)
Definition find_total_amount_due (text lower : str) : option str :=
  let first := total_outer lower total_keywords in
  if negb (PyStr.truthy first) then
    match total_fallback text (finditer false total_fallback_re lower) with
    | Some a => Some a
    | None => first
    end
  else first.

(** *** Payment due date *)

(** [payment\s*due\s*date] *)
Definition payment_due_date_re : regex :=
  word "payment" +> spaces +> word "due" +> spaces +> word "date".

(** [due\s*date] *)
Definition due_date_re : regex := word "due" +> spaces +> word "date".

(** [payment\s*due\b] *)
Definition payment_due_re : regex := word "payment" +> spaces +> word "due" +> WordB.

Definition due_patterns : list regex :=
  [ payment_due_date_re;
    due_date_re;
    payment_due_re;
    (* payment\s*due\s*[:\-]? *)
    word "payment" +> spaces +> word "due" +> spaces +> opt (one_of ":-");
    (* payment\s*due\s* *)
    word "payment" +> spaces +> word "due" +> spaces ].

(** [(immediat|immediate|immediately|immediately)], compiled with [re.I] *)
Definition immediate_re : regex :=
  Grp 1 (word "immediat" <|> word "immediate" <|> word "immediately" <|>
         word "immediately").

(** The loop over the occurrences of one label; [payment_due] is the value
    of the variable when the loop starts. *)
Fixpoint due_inner (text : str) (payment_due : option str) (ms : list mobj)
  : option str :=
  match ms with
  | [] => payment_due
  | m :: ms' =>
      let window := PyStr.slice text (m_end m) (m_end m + 140) in
      match search true DATE_RE window with
      | Some dm => Some (PyStr.strip (m_whole dm))
      | None =>
          match search true immediate_re window with
          | Some im => Some (PyStr.strip (m_whole im))
          | None => due_inner text payment_due ms'
          end
      end
  end.

Fixpoint due_outer (text lower : str) (payment_due : option str) (pats : list regex)
  : option str :=
  match pats with
  | [] => payment_due
  | pat :: pats' =>
      let payment_due := due_inner text payment_due (finditer false pat lower) in
      if PyStr.truthy payment_due then payment_due
      else due_outer text lower payment_due pats'
  end.

(** Step 3 of the source. *)
Definition find_payment_due_date (text lower : str) : option str :=
  due_outer text lower None due_patterns.

(** *** Statement date *)

Definition statement_patterns : list regex :=
  [ (* statement\s*date *)
    word "statement" +> spaces +> word "date";
    (* statement\s*generation\s*date *)
    word "statement" +> spaces +> word "generation" +> spaces +> word "date";
    (* statement\s*period *)
    word "statement" +> spaces +> word "period";
    (* statement\s*for *)
    word "statement" +> spaces +> word "for" ].

(** Two numeric dates around a hyphen or an en dash (code point 8211), each
    side after [\s*]. *)
Definition date_range_re : regex :=
  Grp 1 (numeric_date +> spaces +> Set_ [cc "-"; CChar 8211] +> spaces +> numeric_date).

Fixpoint statement_inner (text : str) (statement_date : option str) (ms : list mobj)
  : option str :=
  match ms with
  | [] => statement_date
  | m :: ms' =>
      let window := PyStr.slice text (m_end m) (m_end m + 140) in
      match search true DATE_RE window with
      | Some dm => Some (PyStr.strip (m_whole dm))
      | None =>
          match search false date_range_re window with
          | Some dm2 => Some (PyStr.strip (m_whole dm2))
          | None => statement_inner text statement_date ms'
          end
      end
  end.

Fixpoint statement_outer (text lower : str) (statement_date : option str)
  (pats : list regex) : option str :=
  match pats with
  | [] => statement_date
  | pat :: pats' =>
      let statement_date := statement_inner text statement_date (finditer false pat lower) in
      if PyStr.truthy statement_date then statement_date
      else statement_outer text lower statement_date pats'
  end.

(** Step 4 of the source. *)
Definition find_statement_date (text lower : str) : option str :=
  statement_outer text lower None statement_patterns.

(** *** Cardholder name *)

(** [[A-Z][A-Z\s\.\-]{2,100}] *)
Definition name_shape : regex :=
  Set_ [cr "A" "Z"] +> times 2 100 (Set_ [cr "A" "Z"; CSpace; cc "."; cc "-"]).

(** [\bName\s*[:\-]\s*([A-Z][A-Z\s\.\-]{2,100})] *)
Definition name_re : regex :=
  WordB +> word "Name" +> spaces +> one_of ":-" +> spaces +> Grp 1 name_shape.

(** [\bCustomer\s+Name\s*[:\-]?\s*([A-Z][A-Z\s\.\-]{2,100})] *)
Definition customer_name_re : regex :=
  WordB +> word "Customer" +> plus space +> word "Name" +> spaces +>
  opt (one_of ":-") +> spaces +> Grp 1 name_shape.

(** [^[A-Z][a-zA-Z\.]{1,}$] *)
Definition capitalised_re : regex :=
  Bos +> Set_ [cr "A" "Z"] +> Rep 1 None (Set_ [cr "a" "z"; cr "A" "Z"; cc "."]) +> Eos.

(** [(statement|payment|due|account|page|customer|bank|credit|statement date)],
    compiled with [re.I] *)
Definition generic_words_re : regex :=
  Grp 1 (word "statement" <|> word "payment" <|> word "due" <|> word "account" <|>
         word "page" <|> word "customer" <|> word "bank" <|> word "credit" <|>
         word "statement date").

Definition is_some {A : Type} (o : option A) : bool :=
  match o with Some _ => true | None => false end.

(** The body of the fallback loop for one line: the line is accepted. *)
Definition name_line_ok (l : str) : bool :=
  let words := PyStr.split l in
  let n := List.length words in
  Nat.ltb 1 n && Nat.leb n 5 &&
  Nat.leb 1 (List.length (filter (fun w => is_some (match_ false capitalised_re w)) words)) &&
  negb (is_some (search true generic_words_re l)).

Fixpoint scan_lines (lines : list str) : option str :=
  match lines with
  | [] => None
  | line :: lines' =>
      let l := PyStr.strip line in
      match l with
      | [] => scan_lines lines'
      | _ :: _ =>
          if is_some (search false digit l) then scan_lines lines'
          else if name_line_ok l then Some l
          else scan_lines lines'
      end
  end.

(** [nm.group(1).strip()] *)
Definition group1_stripped (m : mobj) : result (option str) :=
  match group m 1 with
  | Some g => Ok (Some (PyStr.strip g))
  | None => Raise AttributeError
  end.

(** Step 5 of the source. *)
Definition find_cardholder_name (text : str) : result (option str) :=
  name <- match search false name_re text with
          | Some nm => group1_stripped nm
          | None =>
              match search false customer_name_re text with
              | Some nm2 => group1_stripped nm2
              | None => Ok None
              end
          end ;;
  Ok (if negb (PyStr.truthy name) then
        match scan_lines (firstn 12 (PyStr.splitlines text)) with
        | Some l => Some l
        | None => name
        end
      else name).

(** *** The result and the whole extraction *)

Record Candidates : Type := mkCandidates {
  dates : list str;
  amounts : list str
}.

Record ExtractionResult : Type := mkResult {
  cardholder_name : option str;
  statement_date : option str;
  payment_due_date : option str;
  total_amount_due : option str;
  card_last4 : option str;
  candidates : Candidates
}.

(** [am.group(1).replace(',', '')] for every amount of the text *)
Fixpoint candidate_amounts (ms : list mobj) : result (list str) :=
  match ms with
  | [] => Ok []
  | am :: ms' =>
      match group am 1 with
      | None => Raise AttributeError
      | Some g => l <- candidate_amounts ms' ;; Ok (clean_amount g :: l)
      end
  end.

(** [def extract_datapoints_from_text(text)] *)
Definition extract_datapoints_from_text (text : str) : result ExtractionResult :=
  let lower := PyStr.lower text in
  last4 <- find_card_last4 text lower ;;
  let total := find_total_amount_due text lower in
  let payment_due := find_payment_due_date text lower in
  let statement := find_statement_date text lower in
  name <- find_cardholder_name text ;;
  let ds := map m_whole (finditer true DATE_RE text) in
  ams <- candidate_amounts (finditer false AMOUNT_RE text) ;;
  Ok (mkResult name statement payment_due total last4 (mkCandidates ds ams)).

(** * Specification vocabulary *)

(** ** What a match means

    [Sem ic r w cs cs'] says that [r] can match exactly the characters [w],
    turning the groups [cs] into [cs'] (assertions such as [\b] put no
    constraint here). *)

Section Semantics.

Variable ic : bool.

Fixpoint iter (R : str -> caps -> caps -> Prop) (n : nat) (w : str) (cs cs' : caps)
  : Prop :=
  match n with
  | O => w = [] /\ cs' = cs
  | S n' => exists w1 w2 cs1, w = w1 ++ w2 /\ R w1 cs cs1 /\ iter R n' w2 cs1 cs'
  end.

Definition within (n : nat) (hi : option nat) : Prop :=
  match hi with Some h => (n <= h)%nat | None => True end.

Fixpoint Sem (r : regex) (w : str) (cs cs' : caps) : Prop :=
  match r with
  | Eps | WordB | Bos | Eos => w = [] /\ cs' = cs
  | Chr p => exists c, w = [c] /\ chr_eq ic p c = true /\ cs' = cs
  | Set_ items => exists c, w = [c] /\ set_eq ic items c = true /\ cs' = cs
  | Cat a b =>
      exists w1 w2 cs1, w = w1 ++ w2 /\ Sem a w1 cs cs1 /\ Sem b w2 cs1 cs'
  | Alt a b => Sem a w cs cs' \/ Sem b w cs cs'
  | Rep lo hi a =>
      exists n, (lo <= n)%nat /\ within n hi /\ iter (Sem a) n w cs cs'
  | Grp i a => exists cs1, Sem a w cs cs1 /\ cs' = (i, w) :: cs1
  end.

(** [st'] is [st] after the characters [w]. *)
Definition reaches (st : state) (w : str) (st' : state) : Prop :=
  rest st = w ++ rest st' /\ taken st' = (taken st + List.length w)%nat.

(** When [f] returns an answer, it is the continuation's, called after
    characters that [R] accepts. *)
Definition sound_for (R : str -> caps -> caps -> Prop)
  (f : state -> caps -> cont -> option answer) : Prop :=
  forall st cs k ans, f st cs k = Some ans ->
    exists w st' cs', R w cs cs' /\ reaches st w st' /\ k st' cs' = Some ans.

(** A matcher calls its continuation only on states reached from its own:
    continuations that agree there are interchangeable. *)
Definition local_for (f : state -> caps -> cont -> option answer) : Prop :=
  forall st cs k1 k2,
    (forall st' cs' w, reaches st w st' -> k1 st' cs' = k2 st' cs') ->
    f st cs k1 = f st cs k2.

(** The match [m] of [r] lies in the subject [s] after the characters [a]. *)
Definition lies_at (m : mobj) (r : regex) (s : str) (a : str) : Prop :=
  s = a ++ m_whole m ++ rest (m_tail m) /\
  Sem r (m_whole m) [] (m_caps m) /\
  taken (m_tail m) = List.length (m_whole m).

Fixpoint no_groups (r : regex) : bool :=
  match r with
  | Grp _ _ => false
  | Cat a b | Alt a b => no_groups a && no_groups b
  | Rep _ _ a => no_groups a
  | _ => true
  end.

(** Every character a pattern can consume satisfies [P]. *)
Fixpoint consumes (P : char -> Prop) (r : regex) : Prop :=
  match r with
  | Chr p => forall c, chr_eq ic p c = true -> P c
  | Set_ items => forall c, set_eq ic items c = true -> P c
  | Cat a b | Alt a b => consumes P a /\ consumes P b
  | Rep _ _ a | Grp _ a => consumes P a
  | _ => True
  end.

End Semantics.

(** ** Places in a text *)

(** [d] occurs in [s] as a run of consecutive characters. *)
Definition is_infix (d s : str) : Prop := exists a b, s = a ++ d ++ b.

(** The same as a test: [s] starts with [d]; [d] occurs in [s]. *)
Fixpoint starts_with (d s : str) : bool :=
  match d, s with
  | [], _ => true
  | x :: d', y :: s' => (x =? y) && starts_with d' s'
  | _ :: _, [] => false
  end.

Fixpoint contains (d s : str) : bool :=
  starts_with d s || match s with [] => false | _ :: s' => contains d s' end.

(** A field that is absent or occurs in the text. *)
Definition from_text (text : str) (o : option str) : Prop :=
  forall d, o = Some d -> is_infix d text.

(** The character before the end of [pre], when [p] is before its start. *)
Fixpoint before (p : option char) (pre : str) : option char :=
  match pre with
  | [] => p
  | c :: t => before (Some c) t
  end.

(** The first match of [r] in [s] starts at offset [n]. *)
Definition first_match_at (ic : bool) (r : regex) (s : str) (n : nat) : bool :=
  match search ic r s with
  | Some m => Nat.eqb (m_start m) n
  | None => false
  end.

(** [s] is empty or starts with a character that [f] rejects. *)
Definition stops (f : char -> bool) (s : str) : bool :=
  match s with [] => true | c :: _ => negb (f c) end.

(** The state after the characters [run], when [run ++ tl] is what [st] has
    left. *)
Fixpoint skip_run (run tl : str) (st : state) : state :=
  match run with
  | [] => st
  | c :: r => skip_run r tl (advance c (r ++ tl) st)
  end.

(** The longest prefix of [s] of at most [n] characters that all satisfy
    [f]. *)
Fixpoint run_of (f : char -> bool) (n : nat) (s : str) : str :=
  match n, s with
  | S n', c :: t => if f c then c :: run_of f n' t else []
  | _, _ => []
  end.

(** ** Classes of characters *)

Definition not_digit (c : char) : bool := negb (is_digit c).

Definition digits (s : str) : Prop := Forall (fun c => is_digit c = true) s.

Definition no_digit (s : str) : Prop := Forall (fun c => is_digit c = false) s.

(** The characters of a numeral: digits, comma and point. *)
Definition amount_char (c : char) : bool := is_digit c || (c =? 44) || (c =? 46).

(** The characters of a name after its first letter: [A-Z\s\.\-]. *)
Definition name_char (c : char) : bool :=
  set_has [cr "A" "Z"; CSpace; cc "."; cc "-"] c.

(** The characters between the masking run and the last four digits:
    [*Xx0-9\s\-]. *)
Definition masked_char (c : char) : bool :=
  set_has [cc "*"; cc "X"; cc "x"; cr "0" "9"; CSpace; cc "-"] c.

(** ** Decimal numbers

    The value of [digits] or [digits.digits] as a rational number; [None]
    for any other string. *)

Fixpoint split_dot (s : str) : str * option str :=
  match s with
  | [] => ([], None)
  | c :: t =>
      if c =? 46 then ([], Some t)
      else let (a, b) := split_dot t in (c :: a, b)
  end.

Definition parse_decimal (s : str) : option Q :=
  let (whole, frac) := split_dot s in
  match PyStr.int whole with
  | None => None
  | Some i =>
      match frac with
      | None => Some (inject_Z i)
      | Some f =>
          match PyStr.int f with
          | None => None
          | Some v =>
              Some (inject_Z i + Qmake v (Pos.pow 10 (Pos.of_nat (List.length f))))%Q
          end
      end
  end.

(** The shape of a cleaned amount: digits, then possibly a point and
    digits. *)
Definition decimal_shape (s : str) : Prop :=
  exists d f, s = d ++ f /\ d <> [] /\ digits d /\
    (f = [] \/ exists ds, f = 46 :: ds /\ ds <> [] /\ digits ds).

(** [a] is a numeral of [t] without its commas; the numeral starts with a
    digit. *)
Definition amount_of (t a : str) : Prop :=
  exists g, a = clean_amount g /\ is_infix g t /\ decimal_shape a /\
            forallb amount_char g = true /\
            exists c u, g = c :: u /\ is_digit c = true.

(** ** Conditions on a text for the card number *)

(** The windows of four consecutive characters of a text. *)
Definition windows4 (text : str) : list str :=
  map (fun i => firstn 4 (skipn i text)) (seq 0 (List.length text)).

Definition is_four_digits (w : str) : bool :=
  Nat.eqb (List.length w) 4 && forallb is_digit w.

Definition reads_as_year (w : str) : bool :=
  match PyStr.int w with Some v => is_year v | None => false end.

(** Every four-digit substring of the text is a year of 1900..2099. *)
Definition only_year_like (text : str) : bool :=
  forallb (fun w => if is_four_digits w then reads_as_year w else true) (windows4 text).

(** The text has an occurrence of the keyword [card], as the source looks
    for it. *)
Definition has_card_keyword (text : str) : bool :=
  match finditer false card_re (PyStr.lower text) with [] => false | _ :: _ => true end.

(** The text has a run of masking characters followed by four digits. *)
Definition has_masked_run (text : str) : bool :=
  is_some (search false masked_re text).

(** ** Calls and the module's state

    The only module-level variable of [parsers.py] that is assigned is
    [OCR_AVAILABLE] (at import); the compiled patterns are constants.  A call
    of the extractor takes the module's state and returns it with the
    result: the body neither reads nor writes [OCR_AVAILABLE], and the dict
    [out] and its two lists are created by the call itself. *)

Record ModuleState : Type := mkModuleState { OCR_AVAILABLE : bool }.

Definition call_extract (text : str) (g : ModuleState)
  : result ExtractionResult * ModuleState :=
  (extract_datapoints_from_text text, g).

(** ** Results of sample texts *)

(** The result for a text in which nothing is found. *)
Definition nothing_found : ExtractionResult :=
  mkResult None None None None None (mkCandidates [] []).

(** "Your Payment Due Date 15/03/2024." *)
Definition due_date_example : ExtractionResult :=
  mkResult None None (Some (lit "15/03/2024")) None None
    (mkCandidates [lit "15/03/2024"] [lit "15"; lit "03"; lit "202"; lit "4"]).

(** "Payment Due IMMEDIATELY" *)
Definition immediate_example : ExtractionResult :=
  mkResult None None (Some (lit "IMMEDIAT")) None None (mkCandidates [] []).

(** A text with a statement date, a payment due date and a total. *)
Definition all_three_text : str :=
  lit "Statement Date: 14/01/2024. Payment Due Date 15/03/2024. Total Amount Due: Rs. 12,345.67".

Definition all_three_example : ExtractionResult :=
  mkResult None (Some (lit "14/01/2024")) (Some (lit "15/03/2024"))
    (Some (lit "12345.67")) None
    (mkCandidates [lit "14/01/2024"; lit "15/03/2024"]
       [lit "14"; lit "01"; lit "202"; lit "4"; lit "15"; lit "03"; lit "202"; lit "4";
        lit "12345.67"]).

(** ** More vocabulary *)

(** The strings [ds] occur in [s] one after the other, without overlap. *)
Fixpoint occur_in_order (ds : list str) (s : str) : Prop :=
  match ds with
  | [] => True
  | d :: ds' => exists a b, s = a ++ d ++ b /\ occur_in_order ds' b
  end.

(** [s] starts with the word [x], up to letter case when [ic] is set. *)
Fixpoint prefix_eq (ic : bool) (x s : str) : bool :=
  match x, s with
  | [], _ => true
  | p :: x', c :: s' => chr_eq ic p c && prefix_eq ic x' s'
  | _ :: _, [] => false
  end.

(** The string has a digit. *)
Definition has_digit (s : str) : bool := existsb is_digit s.

(** Whether [f] finds a match depends only on where its continuation does,
    not on the groups recorded so far. *)
Definition defined_alike (f : state -> caps -> cont -> option answer) : Prop :=
  forall st cs1 cs2 k1 k2,
    (forall st' c1 c2, k1 st' c1 = None <-> k2 st' c2 = None) ->
    (f st cs1 k1 = None <-> f st cs2 k2 = None).

(** One round of the two loops, on the pair of a keyword position and a
    run. *)
Definition closer_pair (acc : option (str * nat)) (pm : nat * mobj) : option (str * nat) :=
  closer (fst pm) acc (snd pm).

Definition distance (pm : nat * mobj) : nat := abs_diff (m_start (snd pm)) (fst pm).

(** Every match of [r] contains the word [d]. *)
Definition mentions (d : str) (r : regex) : Prop :=
  forall w cs cs', Sem false r w cs cs' -> is_infix d w.

(** Every match of [r] has a digit. *)
Definition sure_digit (ic : bool) (r : regex) : Prop :=
  forall w cs cs', Sem ic r w cs cs' -> has_digit w = true.

(** ** The first page of a PDF

    [pdfplumber], [pdf2image] and [pytesseract] are outside the program.  A
    [World] says what each of their calls does: it returns a value, or it
    raises an exception of class [Exception], given by its message
    [str(e)].  A PDF is what [pdfplumber.open] returns: what reading
    [pdf.pages] gives, each page with the result of
    [extract_text(x_tolerance=2)], and what leaving the [with] statement
    does.  An image is what [convert_from_path] returns,
    with the result of [pytesseract.image_to_string] on it. *)

Inductive outcome (A : Type) : Type :=
| Returns (a : A)
| Throws (e : str).
Arguments Returns {A} a.
Arguments Throws {A} e.

Record Page : Type := mkPage { extract_text : outcome (option str) }.

Record PDF : Type := mkPDF { pages : outcome (list Page); close : outcome unit }.

Record Image : Type := mkImage { image_to_string : outcome str }.

Record World : Type := mkWorld {
  pdfplumber_open : str -> outcome PDF;
  convert_from_path : str -> outcome (list Image)
}.

(** What the program prints, one entry for each call of [print], with the
    values the call formats. *)
Inductive printed : Type :=
| Processing (file_path : str)
| Little_text
| Direct_error (e : str)
| Attempting_ocr
| Ocr_failed (e : str)
| Ocr_unavailable
| No_text
| Datapoints_header
| Field (k : string) (v : option str)
| Candidates_header
| Dates_found (ds : list str)
| Amounts_found (ams : list str).

(** How a block of statements ends: with its [return], at its last
    statement with the variable [text], or with an exception. *)
Inductive ending : Type :=
| Returned (text : str)
| Completed (text : str)
| Raised (e : str).

(** [t or ""] *)
Definition or_empty (t : option str) : str :=
  match t with Some s => s | None => [] end.

(** [text and len(text.strip()) > n] *)
Definition longer_than (n : nat) (text : str) : bool :=
  PyStr.truthy (Some text) && Nat.ltb n (List.length (PyStr.strip text)).

(** The body of the [with] statement. *)
Definition first_page (pdf : PDF) : ending * list printed :=
  match pages pdf with
  | Throws e => (Raised e, [])
  | Returns [] => (Raised (lit "PDF has no pages."), [])
  | Returns (page :: _) =>
      match extract_text page with
      | Throws e => (Raised e, [])
      | Returns t =>
          let text := or_empty t in
          if longer_than 40 text then (Returned text, [])
          else (Completed text, [Little_text])
      end
  end.

(** The first [try] block.  The [with] statement closes the PDF however
    its body ends, [return] included; an exception raised then takes the
    place of that end. *)
Definition direct_extraction (w : World) (file_path : str) : ending * list printed :=
  match pdfplumber_open w file_path with
  | Throws e => (Raised e, [])
  | Returns pdf =>
      let (how, out) := first_page pdf in
      match close pdf with
      | Throws e => (Raised e, out)
      | Returns _ => (how, out)
      end
  end.

(** The [try] statement of the OCR fallback: the text it returns, if it
    returns. *)
Definition ocr_extraction (w : World) (file_path : str) : option str * list printed :=
  match convert_from_path w file_path with
  | Throws e => (None, [Attempting_ocr; Ocr_failed e])
  | Returns [] => (None, [Attempting_ocr])
  | Returns (image :: _) =>
      match image_to_string image with
      | Throws e => (None, [Attempting_ocr; Ocr_failed e])
      | Returns ocr_text =>
          if longer_than 20 ocr_text then (Some ocr_text, [Attempting_ocr])
          else (None, [Attempting_ocr])
      end
  end.

(** The statements after the first [try] statement, from the value of
    [text] and what has been printed so far. *)
Definition ocr_fallback_step (w : World) (g : ModuleState) (file_path : str)
  (ocr_fallback : bool) (text : str) (out : list printed) : str * list printed :=
  if ocr_fallback && OCR_AVAILABLE g then
    match ocr_extraction w file_path with
    | (Some ocr_text, out') => (ocr_text, out ++ out')
    | (None, out') => (or_empty (Some text), out ++ out')
    end
  else if ocr_fallback then (or_empty (Some text), out ++ [Ocr_unavailable])
  else (or_empty (Some text), out).

(** [def extract_first_page_text(file_path, ocr_fallback=True)] *)
Definition extract_first_page_text (w : World) (g : ModuleState) (file_path : str)
  (ocr_fallback : bool) : str * list printed :=
  let (how, out) := direct_extraction w file_path in
  let out := Processing file_path :: out in
  match how with
  | Returned text => (text, out)
  | Completed text => ocr_fallback_step w g file_path ocr_fallback text out
  | Raised e => ocr_fallback_step w g file_path ocr_fallback [] (out ++ [Direct_error e])
  end.

(** What [parse_pdf_page_one_and_extract] prints for its datapoints: the
    five fields in the order of the dict, then the first candidates. *)
Definition report (datapoints : ExtractionResult) : list printed :=
  [ Datapoints_header;
    Field "cardholder_name" (cardholder_name datapoints);
    Field "statement_date" (statement_date datapoints);
    Field "payment_due_date" (payment_due_date datapoints);
    Field "total_amount_due" (total_amount_due datapoints);
    Field "card_last4" (card_last4 datapoints);
    Candidates_header;
    Dates_found (firstn 5 (dates (candidates datapoints)));
    Amounts_found (firstn 8 (amounts (candidates datapoints))) ].

(** [def parse_pdf_page_one_and_extract(file_path, ocr_fallback=True)];
    [None] is the value returned when no text could be extracted. *)
Definition parse_pdf_page_one_and_extract (w : World) (g : ModuleState)
  (file_path : str) (ocr_fallback : bool)
  : result (option ExtractionResult) * list printed :=
  let (text, out) := extract_first_page_text w g file_path ocr_fallback in
  if negb (PyStr.truthy (Some text)) then (Ok None, out ++ [No_text])
  else
    match extract_datapoints_from_text text with
    | Raise e => (Raise e, out)
    | Ok datapoints => (Ok (Some datapoints), out ++ report datapoints)
    end.

(** The arguments of the command line, as [parse_args] returns them. *)
Record Args : Type := mkArgs { file : str; no_ocr : bool }.

(** The last statement of the script. *)
Definition main (w : World) (g : ModuleState) (args : Args)
  : result (option ExtractionResult) * list printed :=
  parse_pdf_page_one_and_extract w g (file args) (negb (no_ocr args)).

(** The first page as [pdfplumber] gives it, after the PDF is closed
    without an exception. *)
Definition direct_text (w : World) (file_path t : str) : Prop :=
  exists pdf page ps,
    pdfplumber_open w file_path = Returns pdf /\ pages pdf = Returns (page :: ps) /\
    extract_text page = Returns (Some t) /\ close pdf = Returns tt.

(** The text of the first image, at least 21 characters long once
    stripped. *)
Definition ocr_text_of (w : World) (file_path t : str) : Prop :=
  exists image imgs,
    convert_from_path w file_path = Returns (image :: imgs) /\
    image_to_string image = Returns t /\ (20 < List.length (PyStr.strip t))%nat.


(** ** Sample files *)

(** A first page of 48 characters. *)
Definition statement_page : str :=
  lit "Name: JOHN SMITH" ++ 10 :: lit "Total Amount Due: Rs. 12,345.67".

(** What OCR reads on the image of a scanned page. *)
Definition scanned_text : str := lit "Name: JOHN SMITH, card 1234".

(** A file whose first page has a text, and no OCR to speak of. *)
Definition readable_file : World :=
  mkWorld
    (fun _ => Returns (mkPDF (Returns [mkPage (Returns (Some statement_page))]) (Returns tt)))
    (fun _ => Throws (lit "no poppler")).

(** The same file when closing it fails. *)
Definition failing_file : World :=
  mkWorld
    (fun _ => Returns (mkPDF (Returns [mkPage (Returns (Some statement_page))])
                         (Throws (lit "I/O error"))))
    (fun _ => Throws (lit "no poppler")).

(** A scanned file: hardly any text on the first page, more on its image. *)
Definition scanned_file : World :=
  mkWorld
    (fun _ => Returns (mkPDF (Returns [mkPage (Returns (Some (lit "page 1")))]) (Returns tt)))
    (fun _ => Returns [mkImage (Returns scanned_text)]).

(** * Properties *)

(** ** Whatever the matcher returns is a match *)

Section Soundness.

Variable ic : bool.

Lemma reaches_refl (st : state) : reaches st [] st.
Proof. split; [reflexivity | simpl; lia]. Qed.

Lemma reaches_trans (st1 st2 st3 : state) (w1 w2 : str) :
  reaches st1 w1 st2 -> reaches st2 w2 st3 -> reaches st1 (w1 ++ w2) st3.
Proof.
  intros [H1 H2] [H3 H4]. split.
  - rewrite H1, H3. now rewrite app_assoc.
  - rewrite H4, H2, length_app. lia.
Qed.

Lemma reaches_advance (st : state) (c : char) (tl : str) :
  rest st = c :: tl -> reaches st [c] (advance c tl st).
Proof. intros H. split; simpl; [exact H | lia]. Qed.

Lemma or_else_some (x y : option answer) (ans : answer) :
  or_else x y = Some ans -> x = Some ans \/ (x = None /\ y = Some ans).
Proof. destruct x; simpl; intros H; [left | right]; auto. Qed.

Lemma rep_loop_sound R body lo hi k :
  sound_for R body ->
  forall fuel n st cs ans,
    rep_loop body lo hi k fuel n st cs = Some ans ->
    exists m w st' cs',
      iter R m w cs cs' /\ reaches st w st' /\ (lo <= n + m)%nat /\
      (within n hi -> within (n + m) hi) /\ k st' cs' = Some ans.
Proof.
  intros Hbody. induction fuel as [|fuel IH]; intros n st cs ans H; [discriminate|].
  simpl in H. apply or_else_some in H. destruct H as [H | [_ H]].
  - destruct (below n hi) eqn:Hb; [|discriminate].
    apply Hbody in H. destruct H as (w1 & st1 & cs1 & HR & Hr1 & H).
    destruct (Nat.ltb (taken st) (taken st1)); [|discriminate].
    apply IH in H. destruct H as (m & w2 & st' & cs' & Hi & Hr2 & Hlo & Hhi & Hk).
    exists (S m), (w1 ++ w2), st', cs'. repeat split.
    + exists w1, w2, cs1. auto.
    + apply (reaches_trans Hr1 Hr2).
    + rewrite (proj2 Hr2), (proj2 Hr1), length_app. lia.
    + lia.
    + intros _. replace (n + S m)%nat with (S n + m)%nat by lia. apply Hhi.
      unfold below in Hb. destruct hi; simpl; auto. apply Nat.ltb_lt in Hb. lia.
    + exact Hk.
  - destruct (Nat.leb lo n) eqn:Hl; [|discriminate]. apply Nat.leb_le in Hl.
    exists O, [], st, cs. rewrite Nat.add_0_r.
    repeat split; simpl; auto; lia.
Qed.

Lemma rmatch_sound (r : regex) : sound_for (Sem ic r) (rmatch ic r).
Proof.
  induction r as [ | p | items | a IHa b IHb | a IHa b IHb | lo hi a IHa
                 | i a IHa | | | ]; intros st cs k ans H; cbn [rmatch] in H.
  - exists [], st, cs. repeat split; simpl; auto; lia.
  - destruct (rest st) as [|c tl] eqn:Hrest; [discriminate|].
    destruct (chr_eq ic p c) eqn:Hc; [|discriminate].
    exists [c], (advance c tl st), cs. split; [exists c; auto|].
    split; [now apply reaches_advance | exact H].
  - destruct (rest st) as [|c tl] eqn:Hrest; [discriminate|].
    destruct (set_eq ic items c) eqn:Hc; [|discriminate].
    exists [c], (advance c tl st), cs. split; [exists c; auto|].
    split; [now apply reaches_advance | exact H].
  - apply IHa in H. destruct H as (w1 & st1 & cs1 & Ha & Hr1 & H).
    apply IHb in H. destruct H as (w2 & st2 & cs2 & Hb & Hr2 & H).
    exists (w1 ++ w2), st2, cs2. split; [exists w1, w2, cs1; auto|].
    split; [apply (reaches_trans Hr1 Hr2) | exact H].
  - apply or_else_some in H. destruct H as [H | [_ H]].
    + apply IHa in H. destruct H as (w & st' & cs' & Ha & Hr & H).
      exists w, st', cs'. simpl. auto.
    + apply IHb in H. destruct H as (w & st' & cs' & Hb & Hr & H).
      exists w, st', cs'. simpl. auto.
  - eapply rep_loop_sound in H; [|exact IHa].
    destruct H as (m & w & st' & cs' & Hi & Hr & Hlo & Hhi & Hk).
    exists w, st', cs'. split; [|auto]. exists m. repeat split; auto.
    apply Hhi. destruct hi; simpl; auto; lia.
  - apply IHa in H. destruct H as (w & st' & cs1 & Ha & Hr & H).
    exists w, st', ((i, w) :: cs1). split; [exists cs1; auto|]. split; [exact Hr|].
    destruct Hr as [Hr1 Hr2]. rewrite Hr1, Hr2 in H.
    replace (taken st + List.length w - taken st)%nat with (List.length w) in H by lia.
    rewrite firstn_app, firstn_all, Nat.sub_diag, app_nil_r in H. exact H.
  - destruct (at_boundary st); [|discriminate].
    exists [], st, cs. repeat split; simpl; auto; lia.
  - destruct (at_start st); [|discriminate].
    exists [], st, cs. repeat split; simpl; auto; lia.
  - destruct (at_end st); [|discriminate].
    exists [], st, cs. repeat split; simpl; auto; lia.
Qed.

Lemma match_here_sound r p s at_ m :
  match_here ic r p s at_ = Some m -> m_start m = at_ /\ lies_at ic m r s [].
Proof.
  unfold match_here. intros H.
  destruct (rmatch ic r (mkState p s O) [] (fun st cs => Some (st, cs)))
    as [[st cs]|] eqn:E; [|discriminate].
  inversion H; subst m; clear H. simpl.
  apply rmatch_sound in E. destruct E as (w & st' & cs' & HS & [Hr1 Hr2] & E).
  inversion E; subst st' cs'; clear E. simpl in *.
  unfold lies_at; simpl. rewrite Hr2, Hr1, firstn_app, firstn_all, Nat.sub_diag.
  simpl. rewrite app_nil_r. auto.
Qed.

Lemma search_from_sound r s : forall p at_ m,
  search_from ic r p s at_ = Some m ->
  exists a, m_start m = (at_ + List.length a)%nat /\ lies_at ic m r s a.
Proof.
  induction s as [|c tl IH]; intros p at_ m H; simpl in H.
  - destruct (match_here ic r p [] at_) eqn:E; [|discriminate].
    inversion H; subst. apply match_here_sound in E. destruct E as [E1 E2].
    exists []. simpl. split; [lia | exact E2].
  - destruct (match_here ic r p (c :: tl) at_) eqn:E.
    + inversion H; subst. apply match_here_sound in E. destruct E as [E1 E2].
      exists []. simpl. split; [lia | exact E2].
    + apply IH in H. destruct H as (a & H1 & H2 & H3 & H4).
      exists (c :: a). simpl. split; [lia|]. unfold lies_at. simpl.
      rewrite <- H2. auto.
Qed.

Lemma finditer_from_sound r : forall fuel p s at_ m,
  In m (finditer_from fuel ic r p s at_) ->
  exists a, m_start m = (at_ + List.length a)%nat /\ lies_at ic m r s a.
Proof.
  induction fuel as [|fuel IH]; intros p s at_ m H; simpl in H; [contradiction|].
  destruct (search_from ic r p s at_) as [m0|] eqn:E; [|contradiction].
  pose proof (search_from_sound _ _ _ _ E) as (a0 & Hs0 & Hl0).
  destruct H as [H | H]; [subst m0; eauto|].
  destruct Hl0 as (Hs & _ & Ht).
  assert (Hend : m_end m0 = (at_ + List.length (a0 ++ m_whole m0))%nat).
  { unfold m_end. rewrite Hs0, Ht, length_app. lia. }
  destruct (taken (m_tail m0)) eqn:Et.
  - destruct (rest (m_tail m0)) as [|c tl] eqn:Er; [contradiction|].
    apply IH in H. destruct H as (a & H1 & H2 & H3 & H4).
    exists ((a0 ++ m_whole m0) ++ c :: a). split.
    + rewrite H1, Hend. repeat (rewrite length_app || simpl List.length). lia.
    + unfold lies_at. rewrite Hs, H2, <- !app_assoc. simpl. auto.
  - apply IH in H. destruct H as (a & H1 & H2 & H3 & H4).
    exists ((a0 ++ m_whole m0) ++ a). split.
    + rewrite H1, Hend. repeat rewrite length_app. lia.
    + unfold lies_at. rewrite Hs, H2, <- !app_assoc. auto.
Qed.

Lemma finditer_sound r s m :
  In m (finditer ic r s) ->
  exists a, m_start m = List.length a /\ lies_at ic m r s a.
Proof. intros H. apply finditer_from_sound in H. exact H. Qed.

Lemma search_sound r s m :
  search ic r s = Some m ->
  exists a, m_start m = List.length a /\ lies_at ic m r s a.
Proof. intros H. apply search_from_sound in H. exact H. Qed.

End Soundness.

(** ** Consequences of a match *)

Section MatchFacts.

Variable ic : bool.

Lemma iter_keeps_caps (R : str -> caps -> caps -> Prop) :
  (forall w cs cs', R w cs cs' -> cs' = cs) ->
  forall n w cs cs', iter R n w cs cs' -> cs' = cs.
Proof.
  intros HR. induction n as [|n IH]; simpl; intros w cs cs' H.
  - tauto.
  - destruct H as (w1 & w2 & cs1 & _ & H1 & H2).
    apply HR in H1. apply IH in H2. congruence.
Qed.

Lemma Sem_no_groups (r : regex) :
  no_groups r = true -> forall w cs cs', Sem ic r w cs cs' -> cs' = cs.
Proof.
  induction r as [ | p | items | a IHa b IHb | a IHa b IHb | lo hi a IHa | i a IHa | | | ];
    simpl; intros Hg w cs cs' H; try discriminate; try tauto.
  - destruct H as (c & _ & _ & H). exact H.
  - destruct H as (c & _ & _ & H). exact H.
  - apply andb_prop in Hg. destruct Hg as [Hg1 Hg2].
    destruct H as (w1 & w2 & cs1 & _ & H1 & H2).
    apply (IHa Hg1) in H1. apply (IHb Hg2) in H2. congruence.
  - apply andb_prop in Hg. destruct Hg as [Hg1 Hg2].
    destruct H as [H | H]; [apply (IHa Hg1) in H | apply (IHb Hg2) in H]; exact H.
  - destruct H as (n & _ & _ & H).
    eapply iter_keeps_caps in H; [exact H | exact (IHa Hg)].
Qed.

Lemma iter_Forall (P : char -> Prop) (R : str -> caps -> caps -> Prop) :
  (forall w cs cs', R w cs cs' -> Forall P w) ->
  forall n w cs cs', iter R n w cs cs' -> Forall P w.
Proof.
  intros HR. induction n as [|n IH]; simpl; intros w cs cs' H.
  - destruct H as [-> _]. constructor.
  - destruct H as (w1 & w2 & cs1 & -> & H1 & H2).
    apply Forall_app. split; [eapply HR | eapply IH]; eassumption.
Qed.

Lemma Sem_consumes (P : char -> Prop) (r : regex) :
  consumes ic P r -> forall w cs cs', Sem ic r w cs cs' -> Forall P w.
Proof.
  induction r as [ | p | items | a IHa b IHb | a IHa b IHb | lo hi a IHa | i a IHa | | | ];
    simpl; intros HP w cs cs' H; try (destruct H as [-> _]; constructor).
  - destruct H as (c & -> & Hc & _). repeat constructor. auto.
  - destruct H as (c & -> & Hc & _). repeat constructor. auto.
  - destruct HP as [HP1 HP2]. destruct H as (w1 & w2 & cs1 & -> & H1 & H2).
    apply Forall_app. split; [eapply IHa | eapply IHb]; eassumption.
  - destruct HP as [HP1 HP2].
    destruct H as [H | H]; [eapply IHa | eapply IHb]; eassumption.
  - destruct H as (n & _ & _ & H). eapply iter_Forall; [|exact H].
    intros w' c1 c2 Hw. eapply IHa; eassumption.
  - destruct H as (cs1 & H & _). eapply IHa; eassumption.
Qed.

(** A repeated single character class: as many characters as iterations. *)
Lemma iter_set_length (items : list citem) : forall n w cs cs',
  iter (Sem ic (Set_ items)) n w cs cs' -> List.length w = n.
Proof.
  induction n as [|n IH]; simpl; intros w cs cs' H.
  - destruct H as [-> _]. reflexivity.
  - destruct H as (w1 & w2 & cs1 & -> & (c & -> & _) & H2).
    simpl. f_equal. eapply IH; eassumption.
Qed.

Lemma Sem_rep_set (lo : nat) (hi : option nat) (items : list citem) w cs cs' :
  Sem ic (Rep lo hi (Set_ items)) w cs cs' ->
  Forall (fun c => set_eq ic items c = true) w /\
  (lo <= List.length w)%nat /\ within (List.length w) hi /\ cs' = cs.
Proof.
  intros H. split; [|split; [|split]].
  - eapply (Sem_consumes (fun c => set_eq ic items c = true)); [|exact H].
    simpl. auto.
  - destruct H as (n & Hlo & _ & H). apply iter_set_length in H. lia.
  - destruct H as (n & _ & Hhi & H). apply iter_set_length in H. now subst n.
  - eapply Sem_no_groups; [|exact H]. reflexivity.
Qed.

End MatchFacts.

(** ** Facts on strings *)

Lemma is_infix_refl (s : str) : is_infix s s.
Proof. exists [], []. simpl. now rewrite app_nil_r. Qed.

Lemma is_infix_trans (a b c : str) : is_infix a b -> is_infix b c -> is_infix a c.
Proof.
  intros (x & y & ->) (u & v & ->). exists (u ++ x), (y ++ v).
  now rewrite <- !app_assoc.
Qed.

Lemma lstrip_suffix (s : str) : exists a, s = a ++ PyStr.lstrip s.
Proof.
  induction s as [|c t [a IH]]; simpl.
  - now exists [].
  - destruct (is_space c); [|now exists []].
    exists (c :: a). simpl. now rewrite <- IH.
Qed.

Lemma strip_infix (s : str) : is_infix (PyStr.strip s) s.
Proof.
  unfold PyStr.strip, PyStr.rstrip.
  destruct (lstrip_suffix s) as [a Ha].
  destruct (lstrip_suffix (rev (PyStr.lstrip s))) as [b Hb].
  exists a, (rev b). rewrite Ha at 1. f_equal.
  rewrite <- (rev_involutive (PyStr.lstrip s)) at 1. rewrite Hb at 1.
  now rewrite rev_app_distr.
Qed.

Lemma is_infix_Forall (P : char -> Prop) (d s : str) :
  is_infix d s -> Forall P s -> Forall P d.
Proof.
  intros (a & b & ->) H. apply Forall_app in H. destruct H as [_ H].
  apply Forall_app in H. tauto.
Qed.

Lemma firstn_infix (n : nat) (s : str) : is_infix (firstn n s) s.
Proof. exists [], (skipn n s). simpl. apply eq_sym, firstn_skipn. Qed.

Lemma skipn_infix (n : nat) (s : str) : is_infix (skipn n s) s.
Proof.
  exists (firstn n s), []. rewrite app_nil_r. apply eq_sym, firstn_skipn.
Qed.

Lemma slice_infix (s : str) (a b : nat) : is_infix (PyStr.slice s a b) s.
Proof.
  unfold PyStr.slice. eapply is_infix_trans; [apply firstn_infix | apply skipn_infix].
Qed.

Lemma remove_char_absent (c : char) (s : str) : ~ In c (PyStr.remove_char c s).
Proof.
  unfold PyStr.remove_char. intros H. apply filter_In in H. destruct H as [_ H].
  rewrite N.eqb_refl in H. discriminate.
Qed.

Lemma remove_char_app (c : char) (a b : str) :
  PyStr.remove_char c (a ++ b) = PyStr.remove_char c a ++ PyStr.remove_char c b.
Proof. apply filter_app. Qed.

Lemma remove_char_same (c : char) (s : str) :
  Forall (fun x => x <> c) s -> PyStr.remove_char c s = s.
Proof.
  induction 1 as [|x l Hx _ IH]; simpl; [reflexivity|].
  apply N.eqb_neq in Hx. rewrite Hx. simpl. now rewrite IH.
Qed.

(** ** Amounts *)

Lemma digit_not_comma (c : char) : is_digit c = true -> c <> 44.
Proof.
  unfold is_digit, in_range. intros H. apply andb_prop in H.
  destruct H as [H1 H2]. apply N.leb_le in H1. lia.
Qed.

Lemma digit_not_dot (c : char) : is_digit c = true -> (c =? 46) = false.
Proof.
  unfold is_digit, in_range. intros H. apply andb_prop in H.
  destruct H as [H1 H2]. apply N.leb_le in H1. apply N.eqb_neq. lia.
Qed.

Lemma clean_digits (s : str) : digits s -> clean_amount s = s.
Proof.
  intros H. apply remove_char_same. eapply Forall_impl; [|exact H].
  intros c. apply digit_not_comma.
Qed.

Lemma digits_value_some (s : str) : digits s -> forall acc, (0 <= acc)%Z ->
  exists v, PyStr.digits_value acc s = Some v /\ (0 <= v)%Z.
Proof.
  induction 1 as [|c t Hc _ IH]; intros acc Hacc; cbn [PyStr.digits_value].
  - eauto.
  - rewrite Hc. apply IH. pose proof (N2Z.is_nonneg (c - 48)). lia.
Qed.

Lemma int_digits (s : str) : digits s -> s <> [] ->
  exists v, PyStr.int s = Some v /\ (0 <= v)%Z.
Proof.
  intros H Hne. unfold PyStr.int. destruct s; [congruence|].
  apply digits_value_some; [exact H | lia].
Qed.

Lemma split_dot_digits (d : str) : digits d ->
  split_dot d = (d, None) /\ forall f, split_dot (d ++ 46 :: f) = (d, Some f).
Proof.
  induction 1 as [|c t Hc _ [IH1 IH2]]; simpl.
  - auto.
  - rewrite (digit_not_dot _ Hc), IH1. split; [reflexivity|].
    intros f. now rewrite IH2.
Qed.

Lemma decimal_shape_parses (s : str) :
  decimal_shape s -> exists q, parse_decimal s = Some q /\ (0 <= q)%Q.
Proof.
  intros (d & f & -> & Hne & Hd & Hf). unfold parse_decimal.
  destruct (split_dot_digits Hd) as [S1 S2].
  destruct (int_digits Hd Hne) as (i & Hi & Hi0).
  destruct Hf as [-> | (ds & -> & Hds & Hdd)].
  - rewrite app_nil_r, S1, Hi. exists (inject_Z i). split; [reflexivity|].
    unfold Qle. simpl. lia.
  - rewrite S2, Hi. destruct (int_digits Hdd Hds) as (v & Hv & Hv0). rewrite Hv.
    eexists. split; [reflexivity|].
    apply Qle_trans with (inject_Z i + 0)%Q.
    + unfold Qle. simpl. lia.
    + apply Qplus_le_compat; [apply Qle_refl|]. unfold Qle. simpl. lia.
Qed.

Lemma decimal_shape_no_comma (s : str) : decimal_shape s -> ~ In 44 s.
Proof.
  intros (d & f & -> & _ & Hd & Hf) H. apply in_app_or in H. destruct H as [H | H].
  - eapply Forall_forall in Hd; [|exact H]. now apply digit_not_comma in Hd.
  - destruct Hf as [-> | (ds & -> & _ & Hdd)]; [contradiction|].
    destruct H as [H | H]; [discriminate|].
    eapply Forall_forall in Hdd; [|exact H]. now apply digit_not_comma in Hdd.
Qed.

Lemma iter_closed (Q : str -> Prop) (R : str -> caps -> caps -> Prop) :
  Q [] -> (forall a b, Q a -> Q b -> Q (a ++ b)) ->
  (forall w cs cs', R w cs cs' -> Q w) ->
  forall n w cs cs', iter R n w cs cs' -> Q w.
Proof.
  intros Q0 Qapp HR. induction n as [|n IH]; simpl; intros w cs cs' H.
  - destruct H as [-> _]. exact Q0.
  - destruct H as (w1 & w2 & cs1 & -> & H1 & H2). apply Qapp; eauto.
Qed.

Lemma d09_run (lo : nat) (hi : option nat) w cs cs' :
  Sem false (Rep lo hi d09) w cs cs' -> digits w /\ (lo <= List.length w)%nat.
Proof.
  intros H. apply Sem_rep_set in H. destruct H as (H & Hlo & _). split; [|exact Hlo].
  eapply Forall_impl; [|exact H]. intros c Hc. simpl in Hc.
  now rewrite orb_false_r in Hc.
Qed.

Lemma digit_run (lo : nat) (hi : option nat) w cs cs' :
  Sem false (Rep lo hi digit) w cs cs' -> digits w /\ (lo <= List.length w)%nat.
Proof.
  intros H. apply Sem_rep_set in H. destruct H as (H & Hlo & _). split; [|exact Hlo].
  eapply Forall_impl; [|exact H]. intros c Hc. simpl in Hc.
  now rewrite orb_false_r in Hc.
Qed.

Lemma nonempty_length (s : str) : (1 <= List.length s)%nat -> s <> [].
Proof. destruct s; simpl; [lia | discriminate]. Qed.

Lemma fraction_shape w cs cs' :
  Sem false (opt fraction) w cs cs' ->
  w = [] \/ exists ds, w = 46 :: ds /\ ds <> [] /\ digits ds.
Proof.
  intros (n & _ & Hhi & H). simpl in Hhi.
  destruct n as [|[|n]]; [| |lia]; cbn [iter] in H.
  - left. tauto.
  - right. destruct H as (w1 & w2 & cs1 & -> & H1 & -> & _).
    destruct H1 as (a & b & cs2 & -> & (c & -> & Hc & _) & Hb).
    apply digit_run in Hb. destruct Hb as [Hb1 Hb2].
    simpl in Hc. apply N.eqb_eq in Hc. subst c.
    exists b. rewrite app_nil_r. simpl. auto using nonempty_length.
Qed.

Lemma groups_of_thousands w cs cs' :
  Sem false (star (ch "," +> times 3 3 d09)) w cs cs' -> digits (clean_amount w).
Proof.
  intros (n & _ & _ & H). revert H.
  apply (@iter_closed (fun w => digits (clean_amount w))).
  - constructor.
  - intros a b Ha Hb. unfold clean_amount. rewrite remove_char_app.
    apply Forall_app. auto.
  - intros w1 c1 c2 (a & b & cs2 & -> & (c & -> & Hc & _) & Hb).
    apply d09_run in Hb. destruct Hb as [Hb _].
    simpl in Hc. apply N.eqb_eq in Hc. subst c.
    unfold clean_amount. simpl. fold (clean_amount b). now rewrite clean_digits.
Qed.

Lemma clean_fraction (f : str) :
  (f = [] \/ exists ds, f = 46 :: ds /\ ds <> [] /\ digits ds) -> clean_amount f = f.
Proof.
  intros [-> | (ds & -> & _ & H)]; [reflexivity|].
  unfold clean_amount. simpl. fold (clean_amount ds). now rewrite clean_digits.
Qed.

(** What the numeral of the amount pattern captures is, once its commas are
    removed, a decimal number. *)
Lemma numeral_shape g cs cs' :
  Sem false numeral g cs cs' -> decimal_shape (clean_amount g).
Proof.
  intros [H | H].
  - destruct H as (w1 & w' & cs1 & -> & H1 & w2 & w3 & cs2 & -> & H2 & H3).
    apply d09_run in H1. destruct H1 as [H1 L1].
    apply groups_of_thousands in H2. apply fraction_shape in H3.
    exists (w1 ++ clean_amount w2), w3. unfold clean_amount in *.
    rewrite !remove_char_app. fold (clean_amount w1) (clean_amount w3).
    rewrite (clean_digits H1), (clean_fraction H3), app_assoc.
    repeat split; auto.
    + apply nonempty_length in L1. destruct w1; [congruence | discriminate].
    + apply Forall_app. auto.
  - destruct H as (w1 & w3 & cs1 & -> & H1 & H3).
    apply digit_run in H1. destruct H1 as [H1 L1]. apply fraction_shape in H3.
    exists w1, w3. unfold clean_amount in *.
    rewrite remove_char_app. fold (clean_amount w1) (clean_amount w3).
    rewrite (clean_digits H1), (clean_fraction H3).
    repeat split; auto using nonempty_length.
Qed.

(** A match of the amount pattern has a group 1, a numeral lying in the
    subject. *)
Lemma amount_group m s a :
  lies_at false m AMOUNT_RE s a ->
  exists g, group m 1 = Some g /\ g <> [] /\ is_infix g s /\
            decimal_shape (clean_amount g).
Proof.
  intros (Hs & HS & _).
  destruct HS as (w1 & w' & cs1 & Hw & _ & w2 & g & cs2 & -> & _ & cs3 & Hg & Hc).
  exists g. unfold group. rewrite Hc. simpl. repeat split.
  - pose proof (numeral_shape Hg) as (d & f & E & Hd & _).
    intros ->. simpl in E. destruct d; [congruence | discriminate].
  - exists (a ++ w1 ++ w2), (rest (m_tail m)). rewrite Hs, Hw.
    now rewrite <- !app_assoc.
  - eapply numeral_shape; eassumption.
Qed.

Lemma numeral_consumes : consumes false (fun c => amount_char c = true) numeral.
Proof.
  unfold amount_char.
  repeat split; intros c H; simpl in H; rewrite ?orb_false_r in H;
    fold (is_digit c) in H; rewrite H; simpl; now rewrite ?orb_true_r.
Qed.

Lemma amount_group_chars m s a :
  lies_at false m AMOUNT_RE s a ->
  exists g, group m 1 = Some g /\ forallb amount_char g = true /\
            exists c t, g = c :: t /\ is_digit c = true.
Proof.
  intros H. destruct (amount_group H) as (g & Hg & _ & _ & Hshape).
  destruct H as (_ & HS & _).
  destruct HS as (w1 & w' & cs1 & _ & _ & w2 & g' & cs2 & _ & _ & cs3 & Hsem & Hc).
  assert (g' = g) by (unfold group in Hg; rewrite Hc in Hg; simpl in Hg; congruence).
  subst g'. exists g. split; [exact Hg|]. split.
  - apply forallb_forall. intros c Hin.
    pose proof (Sem_consumes _ _ _ numeral_consumes _ _ _ Hsem) as HF.
    eapply Forall_forall in HF; eassumption.
  - destruct Hsem as [Hsem | Hsem].
    + destruct Hsem as (x & y & cs4 & -> & Hx & _). apply d09_run in Hx.
      destruct Hx as [Hd Hl]. destruct x as [|c t]; [simpl in Hl; lia|].
      exists c, (t ++ y). split; [reflexivity|]. now inversion Hd.
    + destruct Hsem as (x & y & cs4 & -> & Hx & _). apply digit_run in Hx.
      destruct Hx as [Hd Hl]. destruct x as [|c t]; [simpl in Hl; lia|].
      exists c, (t ++ y). split; [reflexivity|]. now inversion Hd.
Qed.

Lemma find_amount_near_some t start window :
  PyStr.truthy (find_amount_near t start window) = true ->
  exists g, find_amount_near t start window = Some g /\
            amount_of t (clean_amount g).
Proof.
  unfold find_amount_near.
  destruct (search false AMOUNT_RE (PyStr.slice t start (start + window))) as [m|] eqn:E;
    [|discriminate].
  apply search_sound in E. destruct E as (a & _ & E).
  destruct (amount_group_chars E) as (g' & Hg' & Hchars & Hfirst).
  apply amount_group in E. destruct E as (g & Hg & _ & Hin & Hshape).
  assert (g' = g) by congruence. subst g'.
  rewrite Hg. intros _. exists g. split; [reflexivity|]. exists g.
  repeat split; auto. eapply is_infix_trans; [exact Hin | apply slice_infix].
Qed.

Lemma total_inner_some lower ms a :
  total_inner lower ms = Some a -> amount_of lower a.
Proof.
  induction ms as [|m ms IH]; simpl; [discriminate|].
  destruct (PyStr.truthy (find_amount_near lower (m_end m) 200)) eqn:E; [|exact IH].
  apply find_amount_near_some in E. destruct E as (g & -> & Hg). simpl.
  intros H. inversion H; subst. exact Hg.
Qed.

Lemma total_outer_some lower kws a :
  total_outer lower kws = Some a -> amount_of lower a.
Proof.
  induction kws as [|kw kws IH]; simpl; [discriminate|].
  destruct (total_inner lower (finditer false kw lower)) as [b|] eqn:E; [|exact IH].
  intros H. inversion H; subst. eapply total_inner_some; eassumption.
Qed.

Lemma total_fallback_some text ms a :
  total_fallback text ms = Some a -> amount_of text a.
Proof.
  induction ms as [|m ms IH]; simpl; [discriminate|].
  destruct (PyStr.truthy (find_amount_near text (m_start m) 300)) eqn:E; [|exact IH].
  apply find_amount_near_some in E. destruct E as (g & -> & Hg). simpl.
  intros H. inversion H; subst. exact Hg.
Qed.

Lemma find_total_amount_due_some text lower a :
  find_total_amount_due text lower = Some a ->
  amount_of lower a \/ amount_of text a.
Proof.
  unfold find_total_amount_due.
  destruct (negb (PyStr.truthy (total_outer lower total_keywords))).
  - destruct (total_fallback text (finditer false total_fallback_re lower)) as [b|] eqn:E.
    + intros H. inversion H; subst. right. eapply total_fallback_some; eassumption.
    + intros H. left. eapply total_outer_some; eassumption.
  - intros H. left. eapply total_outer_some; eassumption.
Qed.

Lemma candidate_amounts_ok s : forall ms l,
  (forall m, In m ms -> exists a, lies_at false m AMOUNT_RE s a) ->
  candidate_amounts ms = Ok l -> Forall (amount_of s) l.
Proof.
  induction ms as [|m ms IH]; cbn [candidate_amounts]; intros l Hms H.
  - inversion H. constructor.
  - destruct (Hms m (or_introl eq_refl)) as (a & Ha).
    destruct (amount_group_chars Ha) as (g' & Hg' & Hchars & Hfirst).
    apply amount_group in Ha. destruct Ha as (g & Hg & _ & Hin & Hshape).
    assert (g' = g) by congruence. subst g'.
    rewrite Hg in H. destruct (candidate_amounts ms) as [l'|e] eqn:E; [|discriminate].
    simpl in H. inversion H; subst. constructor.
    + exists g. auto 6.
    + apply IH; [|reflexivity]. intros m0 Hm0. apply Hms. now right.
Qed.

(** The fields of a returned result, one by one. *)
Lemma extract_fields text r :
  extract_datapoints_from_text text = Ok r ->
  let lower := PyStr.lower text in
  find_card_last4 text lower = Ok (card_last4 r) /\
  total_amount_due r = find_total_amount_due text lower /\
  payment_due_date r = find_payment_due_date text lower /\
  statement_date r = find_statement_date text lower /\
  find_cardholder_name text = Ok (cardholder_name r) /\
  dates (candidates r) = map m_whole (finditer true DATE_RE text) /\
  candidate_amounts (finditer false AMOUNT_RE text) = Ok (amounts (candidates r)).
Proof.
  unfold extract_datapoints_from_text. intros H.
  destruct (find_card_last4 text (PyStr.lower text)) as [c|] eqn:E1; [|discriminate].
  destruct (find_cardholder_name text) as [n|] eqn:E2; [|discriminate].
  simpl in H.
  destruct (candidate_amounts (finditer false AMOUNT_RE text)) as [l|] eqn:E3;
    [|discriminate].
  simpl in H. inversion H; subst r; simpl. auto 10.
Qed.

Lemma candidate_amounts_of_text text l :
  candidate_amounts (finditer false AMOUNT_RE text) = Ok l ->
  Forall (amount_of text) l.
Proof.
  apply candidate_amounts_ok. intros m Hm. apply finditer_sound in Hm.
  destruct Hm as (a & _ & Hm). eauto.
Qed.



(** ** The empty text, and purity *)

(** C7: on the empty string the extractor raises nothing and returns a
    result whose five fields are none and whose candidate lists are empty. *)
Theorem extract_empty_text :
  extract_datapoints_from_text [] = Ok nothing_found /\
  cardholder_name nothing_found = None /\
  statement_date nothing_found = None /\
  payment_due_date nothing_found = None /\
  total_amount_due nothing_found = None /\
  card_last4 nothing_found = None /\
  dates (candidates nothing_found) = [] /\
  amounts (candidates nothing_found) = [].
Proof. repeat split. Qed.


(** ** Cardholder name *)

Lemma space_not_digit (c : char) : is_space c = true -> is_digit c = false.
Proof.
  unfold is_space. intros H. apply existsb_exists in H.
  destruct H as (x & Hx & Hc). apply N.eqb_eq in Hc. subst x.
  unfold whitespace in Hx. simpl in Hx.
  repeat (destruct Hx as [<- | Hx]; [reflexivity|]). contradiction.
Qed.

Lemma in_range_not_digit (lo hi c : char) :
  57 < lo -> in_range lo hi c = true -> is_digit c = false.
Proof.
  unfold is_digit, in_range. intros Hlo H. apply andb_prop in H.
  destruct H as [H _]. apply N.leb_le in H.
  apply andb_false_iff. right. apply N.leb_gt. lia.
Qed.

Lemma name_shape_consumes :
  consumes false (fun c => is_digit c = false) name_shape.
Proof.
  split; intros c H; simpl in H; rewrite ?orb_false_r in H.
  - eapply in_range_not_digit; [|exact H]; reflexivity.
  - apply orb_prop in H. destruct H as [H | H].
    + eapply in_range_not_digit; [|exact H]; reflexivity.
    + apply orb_prop in H. destruct H as [H | H]; [now apply space_not_digit|].
      apply orb_prop in H.
      destruct H as [H | H]; apply N.eqb_eq in H; subst c; reflexivity.
Qed.

Lemma name_re_group m s a :
  lies_at false m name_re s a ->
  exists g, group m 1 = Some g /\ no_digit g.
Proof.
  intros (_ & HS & _).
  destruct HS as (w1 & w2 & cs1 & _ & _ & w3 & w4 & cs2 & _ & _ & w5 & w6 & cs3 & _ & _ &
                  w7 & w8 & cs4 & _ & _ & w9 & g & cs5 & _ & _ & cs6 & Hg & Hc).
  exists g. unfold group. rewrite Hc. split; [reflexivity|].
  eapply Sem_consumes; [apply name_shape_consumes | exact Hg].
Qed.

Lemma customer_name_re_group m s a :
  lies_at false m customer_name_re s a ->
  exists g, group m 1 = Some g /\ no_digit g.
Proof.
  intros (_ & HS & _).
  destruct HS as (w1 & w2 & cs1 & _ & _ & w3 & w4 & cs2 & _ & _ & w5 & w6 & cs3 & _ & _ &
                  w7 & w8 & cs4 & _ & _ & w9 & w10 & cs5 & _ & _ &
                  w11 & w12 & cs6 & _ & _ & w13 & g & cs7 & _ & _ & cs8 & Hg & Hc).
  exists g. unfold group. rewrite Hc. split; [reflexivity|].
  eapply Sem_consumes; [apply name_shape_consumes | exact Hg].
Qed.

Lemma strip_no_digit (s : str) : no_digit s -> no_digit (PyStr.strip s).
Proof. apply is_infix_Forall, strip_infix. Qed.

Lemma group1_stripped_no_digit m :
  (exists g0, group m 1 = Some g0 /\ no_digit g0) ->
  exists n, group1_stripped m = Ok (Some n) /\ no_digit n.
Proof.
  intros (g0 & H1 & H2). unfold group1_stripped. rewrite H1.
  eexists. split; [reflexivity | now apply strip_no_digit].
Qed.

Lemma search_digit_none (l : str) : forall p at_,
  search_from false digit p l at_ = None -> no_digit l.
Proof.
  induction l as [|c tl IH]; intros p at_ H; [constructor|].
  simpl in H. unfold match_here in H. simpl in H. rewrite orb_false_r in H.
  destruct (is_digit c) eqn:Hc; [discriminate|].
  constructor; [exact Hc | eapply IH; exact H].
Qed.

Lemma scan_lines_no_digit (lines : list str) (l : str) :
  scan_lines lines = Some l -> no_digit l.
Proof.
  induction lines as [|line lines IH]; simpl; [discriminate|].
  destruct (PyStr.strip line) as [|c t] eqn:El; [exact IH|].
  destruct (is_some (search false digit (c :: t))) eqn:Ed; [exact IH|].
  destruct (name_line_ok (c :: t)); [|exact IH].
  intros H. inversion H; subst l.
  unfold search in Ed. destruct (search_from false digit None (c :: t) 0) eqn:E;
    [discriminate|].
  eapply search_digit_none; exact E.
Qed.

(** The label-based captures always yield a name, made of no digit. *)
Lemma labelled_name_ok text :
  exists name,
    match search false name_re text with
    | Some nm => group1_stripped nm
    | None => match search false customer_name_re text with
              | Some nm2 => group1_stripped nm2
              | None => Ok None
              end
    end = Ok name /\
    forall n, name = Some n -> no_digit n.
Proof.
  destruct (search false name_re text) as [nm|] eqn:E1.
  - apply search_sound in E1. destruct E1 as (a & _ & E1).
    apply name_re_group in E1.
    destruct (group1_stripped_no_digit nm E1) as (n & Hn & Hd).
    exists (Some n). split; [exact Hn|]. intros n' H. inversion H; subst. exact Hd.
  - destruct (search false customer_name_re text) as [nm|] eqn:E2.
    + apply search_sound in E2. destruct E2 as (a & _ & E2).
      apply customer_name_re_group in E2.
      destruct (group1_stripped_no_digit nm E2) as (n & Hn & Hd).
      exists (Some n). split; [exact Hn|]. intros n' H. inversion H; subst. exact Hd.
    + exists None. split; [reflexivity | discriminate].
Qed.

Lemma find_cardholder_name_ok text :
  exists name, find_cardholder_name text = Ok name /\
               forall n, name = Some n -> no_digit n.
Proof.
  unfold find_cardholder_name.
  destruct (labelled_name_ok text) as (name & -> & Hname). cbn [bind].
  eexists. split; [reflexivity|].
  destruct (negb (PyStr.truthy name)); [|exact Hname].
  destruct (scan_lines (firstn 12 (PyStr.splitlines text))) as [l|] eqn:E; [|exact Hname].
  intros n H. inversion H; subst. eapply scan_lines_no_digit; exact E.
Qed.



(** ** Card number *)

Lemma four_digits_match m s a :
  lies_at false m four_digits s a ->
  s = a ++ m_whole m ++ rest (m_tail m) /\ is_four_digits (m_whole m) = true.
Proof.
  intros (Hs & HS & _). split; [exact Hs|].
  apply digit_run in HS as HS'. destruct HS' as [Hd Hlo].
  apply Sem_rep_set in HS. destruct HS as (_ & _ & Hhi & _). simpl in Hhi.
  unfold is_four_digits. apply andb_true_intro. split.
  - apply Nat.eqb_eq. lia.
  - apply forallb_forall. intros c Hc. eapply Forall_forall in Hd; eassumption.
Qed.

Lemma four_digits_int (w : str) :
  is_four_digits w = true -> exists v, PyStr.int w = Some v.
Proof.
  unfold is_four_digits. intros H. apply andb_prop in H. destruct H as [Hl Hd].
  apply Nat.eqb_eq in Hl.
  destruct (@int_digits w) as (v & Hv & _); [| |eauto].
  - apply Forall_forall. intros c Hc. eapply forallb_forall in Hd; eassumption.
  - destruct w; [discriminate Hl | discriminate].
Qed.

Lemma window_of_match (text a w b : str) :
  text = a ++ w ++ b -> List.length w = 4%nat -> In w (windows4 text).
Proof.
  intros -> Hw. unfold windows4. apply in_map_iff. exists (List.length a). split.
  - rewrite skipn_app, skipn_all, Nat.sub_diag. cbn [skipn app].
    rewrite <- Hw, firstn_app, firstn_all, Nat.sub_diag. cbn [firstn].
    apply app_nil_r.
  - apply in_seq. rewrite !length_app. lia.
Qed.

Lemma non_years_none (ms : list mobj) :
  (forall m, In m ms -> reads_as_year (m_whole m) = true) -> non_years ms = Ok [].
Proof.
  induction ms as [|m ms IH]; intros H; cbn [non_years]; [reflexivity|].
  pose proof (H m (or_introl eq_refl)) as Hm. unfold reads_as_year in Hm.
  destruct (PyStr.int (m_whole m)) as [v|]; [|discriminate].
  rewrite IH by (intros m' Hm'; apply H; now right).
  cbn [bind]. now rewrite Hm.
Qed.

Lemma non_years_total text :
  exists cands, non_years (finditer false four_digits text) = Ok cands.
Proof.
  assert (H : forall m, In m (finditer false four_digits text) ->
                        exists v, PyStr.int (m_whole m) = Some v).
  { intros m Hm. apply finditer_sound in Hm. destruct Hm as (a & _ & Hm).
    apply four_digits_match in Hm. now apply four_digits_int. }
  induction (finditer false four_digits text) as [|m ms IH]; cbn [non_years]; [eauto|].
  destruct (H m (or_introl eq_refl)) as (v & ->).
  destruct IH as (cands & ->); [intros m' Hm'; apply H; now right|].
  cbn [bind]. eauto.
Qed.

Lemma only_year_like_matches text m :
  only_year_like text = true -> In m (finditer false four_digits text) ->
  reads_as_year (m_whole m) = true.
Proof.
  intros Hy Hm. apply finditer_sound in Hm. destruct Hm as (a & _ & Hm).
  apply four_digits_match in Hm. destruct Hm as [Hs H4].
  unfold only_year_like in Hy. rewrite forallb_forall in Hy.
  specialize (Hy (m_whole m)). rewrite H4 in Hy. apply Hy.
  eapply window_of_match; [exact Hs|].
  unfold is_four_digits in H4. apply andb_prop in H4. destruct H4 as [H4 _].
  now apply Nat.eqb_eq in H4.
Qed.




(** ** The extractor raises nothing *)

Lemma find_card_last4_total text lower :
  exists c, find_card_last4 text lower = Ok c.
Proof.
  unfold find_card_last4, possible_last4.
  destruct (search false masked_re text); [cbn [bind]; eauto|].
  destruct (map (fun m => group m 1) (finditer false four_digits_group text));
    [cbn [bind]; eauto|].
  destruct (map m_start (finditer false card_re lower)); [|cbn [bind]; eauto].
  destruct (non_years_total text) as (cands & ->). cbn [bind]. eauto.
Qed.

Lemma candidate_amounts_total text :
  exists l, candidate_amounts (finditer false AMOUNT_RE text) = Ok l.
Proof.
  assert (H : forall m, In m (finditer false AMOUNT_RE text) ->
                        exists g, group m 1 = Some g).
  { intros m Hm. apply finditer_sound in Hm. destruct Hm as (a & _ & Hm).
    apply amount_group in Hm. destruct Hm as (g & Hg & _). eauto. }
  induction (finditer false AMOUNT_RE text) as [|m ms IH]; cbn [candidate_amounts];
    [eauto|].
  destruct (H m (or_introl eq_refl)) as (g & ->).
  destruct IH as (l & ->); [intros m' Hm'; apply H; now right|].
  cbn [bind]. eauto.
Qed.

(** For every text the extractor returns a result: [int] is only applied to
    four digits, and every group that is read took part in its match. *)
Lemma extract_never_raises (text : str) :
  exists r, extract_datapoints_from_text text = Ok r.
Proof.
  unfold extract_datapoints_from_text.
  destruct (find_card_last4_total text (PyStr.lower text)) as (c & ->).
  destruct (find_cardholder_name_ok text) as (n & -> & _).
  destruct (candidate_amounts_total text) as (l & ->).
  cbn [bind]. eauto.
Qed.

(** ** Matches at a known place *)

Lemma search_from_eq ic r p s at_ :
  search_from ic r p s at_ =
  match match_here ic r p s at_ with
  | Some m => Some m
  | None => match s with
            | [] => None
            | c :: tl => search_from ic r (Some c) tl (S at_)
            end
  end.
Proof. destruct s; reflexivity. Qed.

Lemma search_from_at ic r (pre : str) : forall p s at_ m,
  search_from ic r p (pre ++ s) at_ = Some m ->
  m_start m = (at_ + List.length pre)%nat ->
  match_here ic r (before p pre) s (at_ + List.length pre) = Some m.
Proof.
  induction pre as [|c pre IH]; intros p s at_ m H Hm; rewrite search_from_eq in H.
  - cbn [app List.length before] in *. rewrite Nat.add_0_r in *.
    destruct (match_here ic r p s at_) as [m0|] eqn:E; [exact H|].
    destruct s as [|c tl]; [discriminate|].
    apply search_from_sound in H. destruct H as (a & H & _). lia.
  - cbn [app List.length before] in *.
    destruct (match_here ic r p (c :: pre ++ s) at_) as [m0|] eqn:E.
    + inversion H; subst m0. apply match_here_sound in E. destruct E as [E _]. lia.
    + replace (at_ + S (List.length pre))%nat with (S at_ + List.length pre)%nat in * by lia.
      now apply IH.
Qed.

Lemma first_match_at_here ic r (pre s : str) :
  first_match_at ic r (pre ++ s) (List.length pre) = true ->
  exists m, search ic r (pre ++ s) = Some m /\
            match_here ic r (before None pre) s (List.length pre) = Some m.
Proof.
  unfold first_match_at. destruct (search ic r (pre ++ s)) as [m|] eqn:E; [|discriminate].
  intros H. apply Nat.eqb_eq in H. exists m. split; [reflexivity|].
  apply (@search_from_at ic r pre None s O m E). exact H.
Qed.

Lemma finditer_head ic r s m :
  search ic r s = Some m -> exists tl, finditer ic r s = m :: tl.
Proof.
  unfold finditer, search. intros H. cbn [finditer_from]. rewrite H. eauto.
Qed.

Lemma lower_app (a b : str) : PyStr.lower (a ++ b) = PyStr.lower a ++ PyStr.lower b.
Proof. apply map_app. Qed.

Lemma lower_length (a : str) : List.length (PyStr.lower a) = List.length a.
Proof. apply length_map. Qed.

Lemma slice_after (pre s : str) (a n : nat) :
  PyStr.slice (pre ++ s) (List.length pre + a) (List.length pre + a + n) =
  firstn n (skipn a s).
Proof.
  unfold PyStr.slice.
  replace (List.length pre + a + n - (List.length pre + a))%nat with n by lia.
  rewrite skipn_app, skipn_all2 by lia.
  replace (List.length pre + a - List.length pre)%nat with a by lia. reflexivity.
Qed.

Lemma search_none_finditer ic r s : search ic r s = None -> finditer ic r s = [].
Proof. unfold finditer, search. intros H. cbn [finditer_from]. now rewrite H. Qed.

Lemma stops_firstn (f : char -> bool) (n : nat) (s : str) :
  stops f (firstn (S n) s) = stops f s.
Proof. destruct s; reflexivity. Qed.

Lemma lower_char_digit (c : char) : is_digit (lower_char c) = is_digit c.
Proof.
  unfold lower_char. destruct (is_upper c) eqn:E; [|reflexivity].
  unfold is_upper, is_digit, in_range in *. apply andb_prop in E.
  destruct E as [E1 E2]. apply N.leb_le in E1. apply N.leb_le in E2.
  rewrite (proj2 (N.leb_gt (c + 32) 57)) by lia.
  rewrite (proj2 (N.leb_gt c 57)) by lia. now rewrite !andb_false_r.
Qed.

Lemma stops_digit_lower (s : str) : stops is_digit (PyStr.lower s) = stops is_digit s.
Proof. destruct s as [|c s]; [reflexivity|]. simpl. now rewrite lower_char_digit. Qed.

(** ** Payment due date *)

Lemma date_after_label (w : str) :
  stops is_word w = true ->
  exists dm, search true DATE_RE (lit " 15/03/2024" ++ w) = Some dm /\
             m_whole dm = lit "15/03/2024".
Proof.
  intros Hs. destruct w as [|c w].
  - eexists. split; vm_compute; reflexivity.
  - cbn [stops] in Hs. apply negb_true_iff in Hs.
    unfold search. cbn. unfold match_here at 1. cbn. rewrite Hs. cbn.
    eexists. split; reflexivity.
Qed.

Lemma payment_due_date_label_case (pre suf : str) :
  let text := pre ++ lit "Payment Due Date 15/03/2024" ++ suf in
  first_match_at false payment_due_date_re (PyStr.lower text) (List.length pre) = true ->
  stops is_word suf = true ->
  find_payment_due_date text (PyStr.lower text) = Some (lit "15/03/2024").
Proof.
  intros text H Hs. subst text.
  rewrite !lower_app in *. rewrite <- (lower_length pre) in H.
  apply first_match_at_here in H. destruct H as (m & Hsearch & Hm).
  rewrite lower_length in Hm.
  apply finditer_head in Hsearch. destruct Hsearch as (tl & Hit).
  unfold find_payment_due_date, due_patterns. cbn [due_outer].
  rewrite Hit. clear Hit. cbn [due_inner].
  unfold match_here in Hm. cbn in Hm.
  inversion Hm; subst m; clear Hm.
  unfold m_end. cbn [m_start m_tail taken advance].
  rewrite (slice_after pre _ 16 140).
  cbn [skipn lit list_ascii_of_string map app]. rewrite !firstn_cons.
  rewrite <- (stops_firstn is_word 128 suf) in Hs.
  destruct (date_after_label _ Hs) as (dm & Hdm & Hw).
  cbn [lit list_ascii_of_string map app] in Hdm. rewrite Hdm, Hw.
  reflexivity.
Qed.

(** What the code returns for the word IMMEDIATELY: the first alternative
    of the pattern, [immediat], matches before the longer ones are tried. *)
Lemma immediate_case (pre suf : str) :
  let text := pre ++ lit "Payment Due IMMEDIATELY" ++ suf in
  search false payment_due_date_re (PyStr.lower text) = None ->
  search false due_date_re (PyStr.lower text) = None ->
  first_match_at false payment_due_re (PyStr.lower text) (List.length pre) = true ->
  search true DATE_RE
    (PyStr.slice text (List.length pre + 11) (List.length pre + 11 + 140)) = None ->
  find_payment_due_date text (PyStr.lower text) = Some (lit "IMMEDIAT").
Proof.
  intros text H1 H2 H Hd. subst text.
  unfold find_payment_due_date, due_patterns. cbn [due_outer].
  rewrite (search_none_finditer _ _ _ H1), (search_none_finditer _ _ _ H2).
  cbn [due_inner PyStr.truthy].
  rewrite !lower_app in *. rewrite <- (lower_length pre) in H.
  apply first_match_at_here in H. destruct H as (m & Hsearch & Hm).
  rewrite lower_length in Hm.
  apply finditer_head in Hsearch. destruct Hsearch as (tl & Hit).
  rewrite Hit. clear Hit. cbn [due_inner].
  unfold match_here in Hm. cbn in Hm.
  inversion Hm; subst m; clear Hm.
  unfold m_end. cbn [m_start m_tail taken advance].
  rewrite Hd.
  rewrite (slice_after pre _ 11 140).
  cbn [skipn lit list_ascii_of_string map app]. rewrite !firstn_cons.
  generalize (firstn 128 suf). intros w.
  assert (E : exists im, search true immediate_re (lit " IMMEDIATELY" ++ w) = Some im /\
                         m_whole im = lit "IMMEDIAT").
  { unfold search. cbn. eexists. split; reflexivity. }
  destruct E as (im & Him & Hw).
  cbn [lit list_ascii_of_string map app] in Him. rewrite Him, Hw. reflexivity.
Qed.




(** ** Total amount due *)

Lemma amount_after_label (w : str) :
  stops is_digit w = true ->
  exists am, search false AMOUNT_RE (lit ": rs. 12,345.67" ++ w) = Some am /\
             group am 1 = Some (lit "12,345.67").
Proof.
  intros Hs. destruct w as [|c w].
  - eexists. split; vm_compute; reflexivity.
  - cbn [stops] in Hs. apply negb_true_iff in Hs.
    unfold search. cbn. unfold match_here at 1. cbn. rewrite Hs. cbn.
    eexists. split; reflexivity.
Qed.

Lemma total_amount_label_case (pre suf : str) :
  let text := pre ++ lit "Total Amount Due: Rs. 12,345.67" ++ suf in
  first_match_at false total_due_re (PyStr.lower text) (List.length pre) = true ->
  stops is_digit suf = true ->
  find_total_amount_due text (PyStr.lower text) = Some (lit "12345.67").
Proof.
  intros text H Hs. subst text.
  rewrite !lower_app in *.
  change (PyStr.lower (lit "Total Amount Due: Rs. 12,345.67"))
    with (lit "total amount due: rs. 12,345.67") in *.
  rewrite <- (lower_length pre) in H.
  apply first_match_at_here in H. destruct H as (m & Hsearch & Hm).
  apply finditer_head in Hsearch. destruct Hsearch as (tl & Hit).
  unfold find_total_amount_due, total_keywords. cbn [total_outer].
  rewrite Hit. clear Hit. cbn [total_inner].
  unfold match_here in Hm. cbn in Hm.
  inversion Hm; subst m; clear Hm.
  unfold m_end, find_amount_near. cbn [m_start m_tail taken advance].
  rewrite (slice_after (PyStr.lower pre) _ 16 200).
  cbn [skipn lit list_ascii_of_string map app]. rewrite !firstn_cons.
  rewrite <- stops_digit_lower, <- (stops_firstn is_digit 184) in Hs.
  destruct (amount_after_label _ Hs) as (am & Ham & Hg).
  cbn [lit list_ascii_of_string map app] in Ham. rewrite Ham, Hg.
  reflexivity.
Qed.




(** ** Greedy repetition of a character class *)

Section ClassRuns.

Variable ic : bool.
Variable items : list citem.
Variables (lo : nat) (hi : option nat) (k : cont).

Let member (c : char) : bool := set_eq ic items c.

Lemma skip_run_taken (run tl : str) : forall st,
  taken (skip_run run tl st) = (taken st + List.length run)%nat.
Proof.
  induction run as [|c r IH]; intros st; simpl; [lia|]. rewrite IH. simpl. lia.
Qed.

Lemma skip_run_rest (run tl : str) : forall st,
  rest st = run ++ tl -> rest (skip_run run tl st) = tl.
Proof.
  induction run as [|c r IH]; intros st H; simpl; [exact H|]. now apply IH.
Qed.

Lemma within_below (n m : nat) : within (n + S m) hi -> below n hi = true.
Proof.
  unfold within, below. destruct hi; [|reflexivity].
  intros H. apply Nat.ltb_lt. lia.
Qed.

Lemma set_step (st : state) (c : char) (t : str) (cs : caps) (k' : cont) :
  rest st = c :: t -> member c = true ->
  rmatch ic (Set_ items) st cs k' = k' (advance c t st) cs.
Proof. intros H Hc. cbn [rmatch]. rewrite H. fold (member c). now rewrite Hc. Qed.

Lemma set_stop (st : state) (cs : caps) (k' : cont) :
  stops member (rest st) = true -> rmatch ic (Set_ items) st cs k' = None.
Proof.
  intros H. cbn [rmatch]. destruct (rest st) as [|c t]; [reflexivity|].
  cbn [stops] in H. apply negb_true_iff in H. fold (member c). now rewrite H.
Qed.

Lemma no_more (tl : str) (n : nat) (st : state) (cs : caps) (k' : cont) :
  rest st = tl ->
  below n hi = false \/ stops member tl = true ->
  (if below n hi then rmatch ic (Set_ items) st cs k' else None) = None.
Proof.
  intros H [Hb | Hs]; [now rewrite Hb|].
  destruct (below n hi); [|reflexivity]. apply set_stop. now rewrite H.
Qed.

(** The loop on a run of the class after which no further iteration is
    possible.  When what follows matches after the whole run, that is the
    result. *)
Lemma rep_loop_greedy (tl : str) (ans : answer) : forall run fuel n st cs,
  rest st = run ++ tl ->
  forallb member run = true ->
  (List.length run < fuel)%nat ->
  within (n + List.length run) hi ->
  below (n + List.length run) hi = false \/ stops member tl = true ->
  (lo <= n + List.length run)%nat ->
  k (skip_run run tl st) cs = Some ans ->
  rep_loop (rmatch ic (Set_ items)) lo hi k fuel n st cs = Some ans.
Proof.
  induction run as [|c r IH]; intros fuel n st cs Hrest Hrun Hfuel Hin Hend Hlo Hk;
    (destruct fuel as [|fuel]; [simpl in Hfuel; lia|]); cbn [rep_loop];
    cbn [List.length skip_run app] in *.
  - rewrite Nat.add_0_r in *. rewrite no_more with (tl := tl) by assumption.
    cbn [or_else].
    apply Nat.leb_le in Hlo. now rewrite Hlo.
  - apply andb_prop in Hrun. destruct Hrun as [Hc Hr].
    rewrite within_below with (m := List.length r) by assumption.
    rewrite set_step with (c := c) (t := r ++ tl) by assumption.
    cbn [advance taken]. rewrite (proj2 (Nat.ltb_lt _ _) (Nat.lt_succ_diag_r (taken st))).
    rewrite (IH fuel (S n) (advance c (r ++ tl) st) cs); try reflexivity; auto.
    + lia.
    + now replace (S n + List.length r)%nat with (n + S (List.length r))%nat by lia.
    + now replace (S n + List.length r)%nat with (n + S (List.length r))%nat by lia.
    + lia.
Qed.

(** When what follows fails after every non-empty part of the run, it is
    tried before the run. *)
Lemma rep_loop_fallback (tl : str) : forall run fuel n st cs,
  rest st = run ++ tl ->
  forallb member run = true ->
  (List.length run < fuel)%nat ->
  within (n + List.length run) hi ->
  below (n + List.length run) hi = false \/ stops member tl = true ->
  (forall a b, run = a ++ b -> a <> [] -> k (skip_run a (b ++ tl) st) cs = None) ->
  rep_loop (rmatch ic (Set_ items)) lo hi k fuel n st cs =
  if Nat.leb lo n then k st cs else None.
Proof.
  induction run as [|c r IH]; intros fuel n st cs Hrest Hrun Hfuel Hin Hend Hk;
    (destruct fuel as [|fuel]; [simpl in Hfuel; lia|]); cbn [rep_loop];
    cbn [List.length app] in *.
  - rewrite Nat.add_0_r in *. now rewrite no_more with (tl := tl) by assumption.
  - apply andb_prop in Hrun. destruct Hrun as [Hc Hr].
    rewrite within_below with (m := List.length r) by assumption.
    rewrite set_step with (c := c) (t := r ++ tl) by assumption.
    cbn [advance taken]. rewrite (proj2 (Nat.ltb_lt _ _) (Nat.lt_succ_diag_r (taken st))).
    rewrite (IH fuel (S n) (advance c (r ++ tl) st) cs); auto.
    + assert (H1 : k (advance c (r ++ tl) st) cs = None)
        by (apply (Hk [c] r); [reflexivity | discriminate]).
      rewrite H1. now destruct (Nat.leb lo (S n)).
    + lia.
    + now replace (S n + List.length r)%nat with (n + S (List.length r))%nat by lia.
    + now replace (S n + List.length r)%nat with (n + S (List.length r))%nat by lia.
    + intros a b Hab Ha. specialize (Hk (c :: a) b). cbn [skip_run app] in Hk.
      rewrite Hab, <- app_assoc. apply Hk; [now rewrite Hab | discriminate].
Qed.

End ClassRuns.

(** ** Cardholder name after the label *)

Lemma forallb_firstn (f : char -> bool) (n : nat) (s : str) :
  forallb f s = true -> forallb f (firstn n s) = true.
Proof.
  revert n. induction s as [|c s IH]; intros [|n] H; simpl; auto.
  simpl in H. apply andb_prop in H. destruct H as [H1 H2].
  now rewrite H1, IH.
Qed.

Lemma forallb_impl (f g : char -> bool) (s : str) :
  (forall c, f c = true -> g c = true) -> forallb f s = true -> forallb g s = true.
Proof.
  intros Hfg. induction s as [|c s IH]; simpl; auto.
  intros H. apply andb_prop in H. destruct H as [H1 H2].
  now rewrite (Hfg _ H1), IH.
Qed.

Lemma space_is_name_char (c : char) : is_space c = true -> name_char c = true.
Proof.
  intros H. unfold name_char. cbn [set_has existsb item_has]. rewrite H.
  now rewrite orb_true_r.
Qed.

Lemma firstn_run (a ws tl : str) (n : nat) :
  firstn (List.length (a ++ firstn n ws)) (a ++ ws ++ tl) = a ++ firstn n ws.
Proof.
  rewrite <- (firstn_skipn n ws) at 2.
  rewrite <- app_assoc, app_assoc, firstn_app, firstn_all, Nat.sub_diag.
  cbn [firstn]. apply app_nil_r.
Qed.

Lemma name_capture (ws tl : str) (st : state) (cs : caps) :
  rest st = lit "JOHN SMITH" ++ ws ++ tl ->
  forallb is_space ws = true ->
  stops name_char tl = true ->
  exists st',
    rmatch false (Grp 1 name_shape) st cs (fun st1 cs1 => Some (st1, cs1))
    = Some (st', (1%nat, lit "JOHN SMITH" ++ firstn 91 ws) :: cs).
Proof.
  intros Hrest Hws Htl. unfold name_shape. cbn [rmatch].
  rewrite Hrest. cbn [lit list_ascii_of_string map app]. 
  change (set_eq false [cr "A" "Z"] (N_of_ascii "J")) with true. cbv iota.
  set (st1 := advance (N_of_ascii "J") _ st).
  eexists.
  apply rep_loop_greedy
    with (run := lit "OHN SMITH" ++ firstn 91 ws) (tl := skipn 91 ws ++ tl).
  - subst st1. cbn [rest advance lit list_ascii_of_string map app].
    rewrite <- (firstn_skipn 91 ws) at 1. now rewrite <- !app_assoc.
  - rewrite forallb_app. apply andb_true_intro. split; [reflexivity|].
    apply forallb_firstn. revert Hws. apply forallb_impl. exact space_is_name_char.
  - subst st1. cbn [rest advance]. rewrite !length_app.
    pose proof (firstn_le_length 91 ws). 
    cbn [lit list_ascii_of_string map List.length]. rewrite !length_app.
    assert (List.length (firstn 91 ws) <= List.length ws)%nat by (rewrite length_firstn; lia).
    lia.
  - cbn [within]. rewrite length_app, length_firstn. 
    cbn [lit list_ascii_of_string map List.length]. lia.
  - destruct (Nat.leb 91 (List.length ws)) eqn:Hl; [apply Nat.leb_le in Hl | apply Nat.leb_gt in Hl].
    + left. rewrite length_app, length_firstn.
      cbn [lit list_ascii_of_string map List.length below].
      apply Nat.ltb_ge. lia.
    + right. rewrite skipn_all2 by lia. exact Htl.
  - rewrite length_app. cbn [lit list_ascii_of_string map List.length]. lia.
  - rewrite skip_run_taken. subst st1. cbn [taken advance].
    replace (S (taken st) + List.length (lit "OHN SMITH" ++ firstn 91 ws) - taken st)%nat
      with (S (List.length (lit "OHN SMITH" ++ firstn 91 ws))) by lia.
    rewrite firstn_cons.
    pose proof (firstn_run (lit "OHN SMITH") ws tl 91) as E.
    remember (List.length (lit "OHN SMITH" ++ firstn 91 ws)) as L eqn:HL.
    cbn [lit list_ascii_of_string map app] in E. rewrite E. reflexivity.
Qed.

Lemma lstrip_spaces (a b : str) :
  forallb is_space a = true -> PyStr.lstrip (a ++ b) = PyStr.lstrip b.
Proof.
  induction a as [|c a IH]; simpl; [reflexivity|].
  intros H. apply andb_prop in H. destruct H as [H1 H2]. rewrite H1. now apply IH.
Qed.

Lemma forallb_rev (f : char -> bool) (s : str) :
  forallb f s = true -> forallb f (rev s) = true.
Proof.
  intros H. apply forallb_forall. intros c Hc. apply in_rev in Hc.
  eapply forallb_forall in H; eassumption.
Qed.

Lemma rstrip_spaces (a ws : str) :
  forallb is_space ws = true -> PyStr.rstrip (a ++ ws) = PyStr.rstrip a.
Proof.
  intros H. unfold PyStr.rstrip. rewrite rev_app_distr.
  now rewrite lstrip_spaces by now apply forallb_rev.
Qed.

Lemma strip_john_smith (ws : str) :
  forallb is_space ws = true ->
  PyStr.strip (lit "JOHN SMITH" ++ ws) = lit "JOHN SMITH".
Proof.
  intros H. unfold PyStr.strip.
  change (PyStr.lstrip (lit "JOHN SMITH" ++ ws)) with (lit "JOHN SMITH" ++ ws).
  now rewrite rstrip_spaces.
Qed.

Lemma name_label_case (pre ws tl : str) :
  let text := pre ++ lit "Name: JOHN SMITH" ++ ws ++ tl in
  first_match_at false name_re text (List.length pre) = true ->
  forallb is_space ws = true ->
  stops name_char tl = true ->
  find_cardholder_name text = Ok (Some (lit "JOHN SMITH")).
Proof.
  intros text H Hws Htl. subst text.
  apply first_match_at_here in H. destruct H as (nm & Hsearch & Hm).
  unfold find_cardholder_name. rewrite Hsearch. clear Hsearch.
  assert (Hg : group nm 1 = Some (lit "JOHN SMITH" ++ firstn 91 ws)).
  { unfold match_here, name_re in Hm.
    remember (Grp 1 name_shape) as G eqn:HG.
    cbn in Hm.
    match type of Hm with
    | match (if ?b then _ else _) with _ => _ end = _ => destruct b; [|discriminate]
    end.
    subst G.
    match type of Hm with
    | context [or_else (rmatch false _ ?st ?cs _) _] =>
        destruct (name_capture ws tl st cs) as (st' & E);
        [reflexivity | assumption | assumption |]
    end.
    rewrite E in Hm. cbn [or_else] in Hm. inversion Hm. reflexivity. }
  unfold group1_stripped. rewrite Hg. cbn [bind].
  rewrite strip_john_smith by now apply forallb_firstn.
  reflexivity.
Qed.




(** ** Card number after a masked run *)

Lemma run_of_spec (f : char -> bool) : forall n s,
  s = run_of f n s ++ skipn (List.length (run_of f n s)) s /\
  forallb f (run_of f n s) = true /\
  (List.length (run_of f n s) <= n)%nat /\
  (List.length (run_of f n s) = n \/
   stops f (skipn (List.length (run_of f n s)) s) = true).
Proof.
  induction n as [|n IH]; intros s; cbn [run_of].
  - cbn. auto.
  - destruct s as [|c t]; [cbn; auto with arith|].
    destruct (f c) eqn:Hc.
    + destruct (IH t) as (H1 & H2 & H3 & H4). cbn [List.length skipn app forallb].
      rewrite Hc, H2. repeat split; auto.
      * now rewrite <- H1.
      * lia.
      * destruct H4 as [H4 | H4]; [left; lia | now right].
    + cbn. rewrite Hc. repeat split; auto with arith.
Qed.

Lemma or_else_none_r (x : option answer) : or_else x None = x.
Proof. now destruct x. Qed.

(** Four digits are not matched where fewer than four characters come
    before one that is no digit. *)
Lemma four_digits_fail (t : str) (k : cont) :
  stops is_digit t = true ->
  forall d fuel n st cs,
    rest st = d ++ t -> (n + List.length d < 4)%nat ->
    rep_loop (rmatch false digit) 4 (Some 4%nat) k fuel n st cs = None.
Proof.
  intros Ht. induction d as [|c d IH]; intros fuel n st cs Hrest Hn;
    (destruct fuel as [|fuel]; [reflexivity|]); cbn [rep_loop];
    cbn [app List.length] in *.
  - replace (Nat.leb 4 n) with false by (symmetry; apply Nat.leb_gt; lia).
    rewrite or_else_none_r. destruct (below n (Some 4%nat)); [|reflexivity].
    unfold digit. cbn [rmatch]. rewrite Hrest. destruct t as [|c t]; [reflexivity|].
    cbn [stops] in Ht. apply negb_true_iff in Ht. cbn. now rewrite Ht.
  - replace (Nat.leb 4 n) with false by (symmetry; apply Nat.leb_gt; lia).
    rewrite or_else_none_r. destruct (below n (Some 4%nat)); [|reflexivity].
    unfold digit. cbn [rmatch]. rewrite Hrest.
    destruct (set_eq false [CDigit] c); [|reflexivity].
    destruct (Nat.ltb (taken st) (taken (advance c (d ++ t) st))); [|reflexivity].
    apply IH; [reflexivity | lia].
Qed.

Lemma stops_after (x y : str) (i : nat) :
  forallb not_digit x = true -> stops is_digit y = true ->
  stops is_digit (skipn i x ++ y) = true.
Proof.
  revert i. induction x as [|c x IH]; intros i Hx Hy.
  - now rewrite skipn_nil.
  - cbn [forallb] in Hx. apply andb_prop in Hx. destruct Hx as [Hc Hx].
    destruct i as [|i]; [exact Hc | now apply IH].
Qed.

Lemma no_digit_ahead (n : nat) (a b : str) :
  forallb not_digit (firstn (S n) (a ++ b)) = true ->
  (List.length a <= n)%nat ->
  forallb not_digit a = true /\ stops is_digit b = true.
Proof.
  intros H Ha. rewrite firstn_app, forallb_app in H.
  apply andb_prop in H. destruct H as [H1 H2].
  rewrite firstn_all2 in H1 by lia. split; [exact H1|].
  destruct b as [|c b]; [reflexivity|].
  replace (S n - List.length a)%nat with (S (n - List.length a)) in H2 by lia.
  cbn [firstn forallb] in H2. apply andb_prop in H2. tauto.
Qed.

Lemma masked_tail (suf : str) (st : state) (cs : caps) (K : cont) (ans : answer) :
  rest st = lit "9004" ++ suf ->
  forallb not_digit (firstn 17 suf) = true ->
  K (skip_run (lit "9004") suf st) ((2%nat, lit "9004") :: cs) = Some ans ->
  rmatch false masked_tail_re st cs K = Some ans.
Proof.
  intros Hrest Hsuf HK.
  pose proof (run_of_spec masked_char 16 suf) as (Hs & Hrun & Hlen & Hend).
  set (crun := run_of masked_char 16 suf) in *.
  set (tl := skipn (List.length crun) suf) in *.
  rewrite Hs in Hsuf. apply no_digit_ahead in Hsuf; [|exact Hlen].
  destruct Hsuf as [Hcr Htl].
  change (rmatch false masked_tail_re st cs K)
    with (rep_loop
            (rmatch false (Set_ [cc "*"; cc "X"; cc "x"; cr "0" "9"; CSpace; cc "-"]))
            0 (Some 20%nat)
            (fun st1 cs1 => rmatch false (Grp 2 (times 4 4 digit)) st1 cs1 K)
            (S (List.length (rest st))) 0 st cs).
  rewrite rep_loop_fallback with (run := lit "9004" ++ crun) (tl := tl).
  - cbn [Nat.leb]. unfold times. cbn [rmatch].
    apply rep_loop_greedy with (run := lit "9004") (tl := suf); auto.
    + rewrite Hrest, length_app. cbn [lit list_ascii_of_string map List.length]. lia.
    + cbn. lia.
    + rewrite skip_run_taken, Hrest.
      replace (taken st + List.length (lit "9004") - taken st)%nat with 4%nat
        by (cbn [lit list_ascii_of_string map List.length]; lia).
      exact HK.
  - rewrite Hrest, Hs. now rewrite <- app_assoc.
  - rewrite forallb_app. apply andb_true_intro. split; [reflexivity | exact Hrun].
  - rewrite Hrest, Hs, !length_app. lia.
  - cbn [within]. rewrite length_app. cbn [lit list_ascii_of_string map List.length]. lia.
  - destruct Hend as [Hend | Hend]; [left | now right].
    rewrite length_app, Hend. reflexivity.
  - intros a b Hab Ha. unfold times. cbn [rmatch].
    apply four_digits_fail
      with (t := skipn (List.length a - 4) crun ++ tl) (d := skipn (List.length a) (lit "9004")).
    + now apply stops_after.
    + rewrite skip_run_rest by (rewrite Hrest, Hs, app_assoc, Hab; now rewrite <- app_assoc).
      rewrite app_assoc. f_equal.
      assert (E : b = skipn (List.length a) (a ++ b))
        by (now rewrite skipn_app, skipn_all, Nat.sub_diag).
      rewrite E at 1. rewrite <- Hab, skipn_app. reflexivity.
    + rewrite length_skipn. cbn [lit list_ascii_of_string map List.length].
      destruct a; [congruence | cbn [List.length]; lia].
Qed.

Lemma masked_card_group (p : option char) (suf : str) (n : nat) (m : mobj) :
  forallb not_digit (firstn 17 suf) = true ->
  match_here false masked_re p (lit "******9004" ++ suf) n = Some m ->
  group m 2 = Some (lit "9004").
Proof.
  intros Hsuf Hm. unfold match_here, masked_re in Hm.
  remember masked_tail_re as T eqn:HT.
  cbn in Hm. subst T.
  match type of Hm with
  | context [or_else (rmatch false masked_tail_re ?st ?cs ?K) _] =>
      assert (E : exists ans, rmatch false masked_tail_re st cs K = Some ans /\
                              lookup 2 (snd ans) = Some (lit "9004"))
        by (eexists; split;
            [apply masked_tail with (suf := suf); [reflexivity | exact Hsuf | reflexivity]
            | reflexivity])
  end.
  destruct E as ([st' cs'] & E & Hl). rewrite E in Hm. cbn [or_else] in Hm.
  inversion Hm; subst m. exact Hl.
Qed.

Lemma masked_card_case (pre suf : str) :
  let text := pre ++ lit "530562******9004" ++ suf in
  first_match_at false masked_re text (List.length pre + 6) = true ->
  forallb not_digit (firstn 17 suf) = true ->
  find_card_last4 text (PyStr.lower text) = Ok (Some (lit "9004")).
Proof.
  intros text H Hsuf. subst text.
  change (pre ++ lit "530562******9004" ++ suf)
    with (pre ++ lit "530562" ++ lit "******9004" ++ suf) in *.
  rewrite (app_assoc pre) in *.
  replace (List.length pre + 6)%nat with (List.length (pre ++ lit "530562")) in H
    by (rewrite length_app; reflexivity).
  apply first_match_at_here in H. destruct H as (m & Hsearch & Hm).
  apply masked_card_group in Hm; [|exact Hsuf].
  unfold find_card_last4, possible_last4.
  rewrite Hsearch, Hm. reflexivity.
Qed.




(** ** Primary fields and the text *)

Lemma search_whole_infix ic r s m :
  search ic r s = Some m -> is_infix (m_whole m) s.
Proof.
  intros H. apply search_sound in H. destruct H as (a & _ & Hs & _).
  exists a, (rest (m_tail m)). exact Hs.
Qed.

Lemma window_match_infix ic r text a b m :
  search ic r (PyStr.slice text a b) = Some m ->
  is_infix (PyStr.strip (m_whole m)) text.
Proof.
  intros H. apply search_whole_infix in H.
  eapply is_infix_trans; [apply strip_infix|].
  eapply is_infix_trans; [exact H | apply slice_infix].
Qed.

Lemma due_inner_infix text ms : forall pd,
  from_text text pd -> from_text text (due_inner text pd ms).
Proof.
  induction ms as [|m ms IH]; intros pd Hpd; cbn [due_inner]; [exact Hpd|].
  destruct (search true DATE_RE _) as [dm|] eqn:E1.
  - intros d Hd. inversion Hd; subst. eapply window_match_infix; exact E1.
  - destruct (search true immediate_re _) as [im|] eqn:E2.
    + intros d Hd. inversion Hd; subst. eapply window_match_infix; exact E2.
    + now apply IH.
Qed.

Lemma due_outer_infix text lower pats : forall pd,
  from_text text pd -> from_text text (due_outer text lower pd pats).
Proof.
  induction pats as [|pat pats IH]; intros pd Hpd; cbn [due_outer]; [exact Hpd|].
  pose proof (@due_inner_infix text (finditer false pat lower) pd Hpd) as H.
  destruct (PyStr.truthy _); [exact H | now apply IH].
Qed.

Lemma statement_inner_infix text ms : forall sd,
  from_text text sd -> from_text text (statement_inner text sd ms).
Proof.
  induction ms as [|m ms IH]; intros sd Hsd; cbn [statement_inner]; [exact Hsd|].
  destruct (search true DATE_RE _) as [dm|] eqn:E1.
  - intros d Hd. inversion Hd; subst. eapply window_match_infix; exact E1.
  - destruct (search false date_range_re _) as [dm2|] eqn:E2.
    + intros d Hd. inversion Hd; subst. eapply window_match_infix; exact E2.
    + now apply IH.
Qed.

Lemma statement_outer_infix text lower pats : forall sd,
  from_text text sd -> from_text text (statement_outer text lower sd pats).
Proof.
  induction pats as [|pat pats IH]; intros sd Hsd; cbn [statement_outer]; [exact Hsd|].
  pose proof (@statement_inner_infix text (finditer false pat lower) sd Hsd) as H.
  destruct (PyStr.truthy _); [exact H | now apply IH].
Qed.

Lemma from_text_none text : from_text text None.
Proof. intros d H. discriminate. Qed.

(** Lowering a text leaves its numerals where they are. *)
Lemma amount_char_lower (x c : char) :
  amount_char c = true -> lower_char x = c -> x = c.
Proof.
  unfold lower_char. destruct (is_upper x) eqn:Hx; [|auto].
  intros Hc <-. exfalso. unfold is_upper, in_range in Hx.
  apply andb_prop in Hx. destruct Hx as [H1 H2].
  apply N.leb_le in H1. apply N.leb_le in H2.
  unfold amount_char, is_digit, in_range in Hc.
  apply orb_prop in Hc. destruct Hc as [Hc | Hc].
  - apply orb_prop in Hc. destruct Hc as [Hc | Hc].
    + apply andb_prop in Hc. destruct Hc as [_ Hc]. apply N.leb_le in Hc. lia.
    + apply N.eqb_eq in Hc. lia.
  - apply N.eqb_eq in Hc. lia.
Qed.

Lemma map_lower_amount (g : str) : forall g',
  forallb amount_char g = true -> PyStr.lower g' = g -> g' = g.
Proof.
  induction g as [|c g IH]; intros [|x g'] Hg H; try discriminate; [reflexivity|].
  cbn in H. inversion H as [[Hx Hrest]]. cbn [forallb] in Hg.
  apply andb_prop in Hg. destruct Hg as [Hc Hg].
  f_equal.
  - apply amount_char_lower with (c := lower_char x); [now rewrite Hx | reflexivity].
  - rewrite Hrest. now apply IH.
Qed.

Lemma infix_of_lower (g text : str) :
  forallb amount_char g = true -> is_infix g (PyStr.lower text) -> is_infix g text.
Proof.
  intros Hg (a & b & H). unfold PyStr.lower in H.
  apply map_eq_app in H. destruct H as (a' & r' & -> & _ & H).
  apply map_eq_app in H. destruct H as (g' & b' & -> & H & _).
  apply (@map_lower_amount g g' Hg) in H. subst g'. now exists a', b'.
Qed.

(** ** A text with a digit has an amount *)

Lemma or_else_left (x y : option answer) : x <> None -> or_else x y <> None.
Proof. destruct x; simpl; congruence. Qed.

Lemma or_else_right (x y : option answer) : y <> None -> or_else x y <> None.
Proof. destruct x; simpl; congruence. Qed.

Lemma rep_loop_can_stop body lo hi k fuel n st cs :
  (lo <= n)%nat -> k st cs <> None ->
  rep_loop body lo hi k (S fuel) n st cs <> None.
Proof.
  intros Hlo Hk. cbn [rep_loop]. apply or_else_right.
  apply Nat.leb_le in Hlo. now rewrite Hlo.
Qed.

Lemma rmatch_skip ic hi a st cs k :
  k st cs <> None -> rmatch ic (Rep 0 hi a) st cs k <> None.
Proof. intros Hk. cbn [rmatch]. apply rep_loop_can_stop; [lia | exact Hk]. Qed.

Lemma amount_at_digit (p : option char) (c : char) (tl : str) (at_ : nat) :
  is_digit c = true -> match_here false AMOUNT_RE p (c :: tl) at_ <> None.
Proof.
  intros Hc. unfold match_here.
  assert (H : rmatch false AMOUNT_RE (mkState p (c :: tl) 0) []
                (fun st cs => Some (st, cs)) <> None).
  { unfold AMOUNT_RE. cbn [rmatch]. apply rmatch_skip. apply rmatch_skip.
    unfold numeral. cbn [rmatch]. apply or_else_left.
    unfold times at 1. cbn [rmatch rep_loop rest below Nat.ltb Nat.leb].
    apply or_else_left. unfold d09. cbn [rmatch rest].
    replace (set_eq false [cr "0" "9"] c) with true
      by (symmetry; cbn; now rewrite orb_false_r).
    cbn [advance taken Nat.ltb Nat.leb List.length].
    apply rep_loop_can_stop; [lia|].
    apply rmatch_skip. apply rmatch_skip. discriminate. }
  destruct (rmatch false AMOUNT_RE _ _ _) as [[st cs]|]; [discriminate | congruence].
Qed.

Lemma search_finds_amount (text : str) : forall p at_,
  existsb is_digit text = true -> search_from false AMOUNT_RE p text at_ <> None.
Proof.
  induction text as [|c tl IH]; intros p at_ H; [discriminate|].
  cbn [search_from].
  destruct (match_here false AMOUNT_RE p (c :: tl) at_) eqn:E; [discriminate|].
  cbn [existsb] in H. apply orb_prop in H. destruct H as [H | H].
  - now apply (amount_at_digit p c tl at_) in H.
  - now apply IH.
Qed.

Lemma amounts_not_empty (text : str) (l : list str) :
  existsb is_digit text = true ->
  candidate_amounts (finditer false AMOUNT_RE text) = Ok l -> l <> [].
Proof.
  intros Hd H.
  destruct (search false AMOUNT_RE text) as [m|] eqn:E.
  - apply finditer_head in E. destruct E as (tl & E). rewrite E in H.
    cbn [candidate_amounts] in H. destruct (group m 1); [|discriminate].
    destruct (candidate_amounts tl); [|discriminate].
    cbn [bind] in H. inversion H. discriminate.
  - now apply (search_finds_amount text None O) in Hd.
Qed.

Lemma infix_has_digit (c : char) (u text : str) :
  is_digit c = true -> is_infix (c :: u) text -> existsb is_digit text = true.
Proof.
  intros Hc (a & b & ->). apply existsb_exists. exists c. split; [|exact Hc].
  apply in_or_app. right. now left.
Qed.

(** The total amount due is a numeral of the text without its commas. *)
Lemma total_amount_from_text text a :
  find_total_amount_due text (PyStr.lower text) = Some a -> amount_of text a.
Proof.
  intros H. apply find_total_amount_due_some in H. destruct H as [H | H]; [|exact H].
  destruct H as (g & Ha & Hin & Hs & Hchars & Hfirst).
  exists g. repeat split; auto. now apply infix_of_lower.
Qed.




(** ** The fuel of the loops is enough

    A repetition takes one unit of fuel per iteration and an iteration
    consumes at least one character; the scan of [finditer] takes one unit
    per match and moves at least one character on.  More fuel than the
    number of characters left changes nothing. *)

Section Fuel.

Variable ic : bool.

Lemma rep_loop_local body lo hi :
  local_for body ->
  forall fuel n st cs k1 k2,
    (forall st' cs' w, reaches st w st' -> k1 st' cs' = k2 st' cs') ->
    rep_loop body lo hi k1 fuel n st cs = rep_loop body lo hi k2 fuel n st cs.
Proof.
  intros Hbody. induction fuel as [|fuel IH]; intros n st cs k1 k2 Hk; [reflexivity|].
  cbn [rep_loop]. rewrite (Hk st cs [] (reaches_refl st)). f_equal.
  destruct (below n hi); [|reflexivity].
  apply Hbody. intros st1 cs1 w Hr.
  destruct (Nat.ltb (taken st) (taken st1)); [|reflexivity].
  apply IH. intros st2 cs2 w2 Hr2. apply Hk with (w := w ++ w2).
  eapply reaches_trans; eassumption.
Qed.

Lemma rmatch_local (r : regex) : local_for (rmatch ic r).
Proof.
  induction r as [ | p | items | a IHa b IHb | a IHa b IHb | lo hi a IHa
                 | i a IHa | | | ]; intros st cs k1 k2 Hk; cbn [rmatch].
  - apply Hk with (w := []). apply reaches_refl.
  - destruct (rest st) as [|c tl] eqn:E; [reflexivity|].
    destruct (chr_eq ic p c); [|reflexivity].
    apply Hk with (w := [c]). now apply reaches_advance.
  - destruct (rest st) as [|c tl] eqn:E; [reflexivity|].
    destruct (set_eq ic items c); [|reflexivity].
    apply Hk with (w := [c]). now apply reaches_advance.
  - apply IHa. intros st1 cs1 w1 Hr1. apply IHb. intros st2 cs2 w2 Hr2.
    apply Hk with (w := w1 ++ w2). eapply reaches_trans; eassumption.
  - rewrite (IHa st cs k1 k2 Hk), (IHb st cs k1 k2 Hk). reflexivity.
  - now apply rep_loop_local.
  - apply IHa. intros st1 cs1 w Hr. now apply Hk with (w := w).
  - destruct (at_boundary st); [|reflexivity].
    apply Hk with (w := []). apply reaches_refl.
  - destruct (at_start st); [|reflexivity].
    apply Hk with (w := []). apply reaches_refl.
  - destruct (at_end st); [|reflexivity].
    apply Hk with (w := []). apply reaches_refl.
Qed.

Lemma reaches_shorter (st st' : state) (w : str) :
  reaches st w st' -> (taken st < taken st')%nat ->
  (List.length (rest st') < List.length (rest st))%nat.
Proof. intros [H1 H2] Ht. rewrite H1, length_app. lia. Qed.

Lemma rep_loop_fuel body lo hi k :
  local_for body ->
  forall f1 f2 n st cs,
    (List.length (rest st) < f1)%nat -> (List.length (rest st) < f2)%nat ->
    rep_loop body lo hi k f1 n st cs = rep_loop body lo hi k f2 n st cs.
Proof.
  intros Hbody. induction f1 as [|f1 IH]; intros f2 n st cs H1 H2; [lia|].
  destruct f2 as [|f2]; [lia|]. cbn [rep_loop]. f_equal.
  destruct (below n hi); [|reflexivity].
  apply Hbody. intros st1 cs1 w Hr.
  destruct (Nat.ltb (taken st) (taken st1)) eqn:Ht; [|reflexivity].
  apply Nat.ltb_lt in Ht. pose proof (reaches_shorter Hr Ht).
  apply IH; lia.
Qed.

(** The repetition of the matcher is the loop with any larger fuel. *)
Lemma rmatch_rep_fuel (lo : nat) (hi : option nat) (a : regex) st cs k fuel :
  (List.length (rest st) < fuel)%nat ->
  rmatch ic (Rep lo hi a) st cs k = rep_loop (rmatch ic a) lo hi k fuel O st cs.
Proof.
  intros H. cbn [rmatch]. apply rep_loop_fuel; [apply rmatch_local | lia | exact H].
Qed.

Lemma finditer_from_fuel r : forall f1 f2 p s at_,
  (List.length s < f1)%nat -> (List.length s < f2)%nat ->
  finditer_from f1 ic r p s at_ = finditer_from f2 ic r p s at_.
Proof.
  induction f1 as [|f1 IH]; intros f2 p s at_ H1 H2; [lia|].
  destruct f2 as [|f2]; [lia|]. cbn [finditer_from].
  destruct (search_from ic r p s at_) as [m|] eqn:E; [|reflexivity].
  f_equal. apply search_from_sound in E. destruct E as (a & _ & Hs & _ & Ht).
  assert (Hlen : List.length s =
                 (List.length a + List.length (m_whole m) + List.length (rest (m_tail m)))%nat)
    by (rewrite Hs at 1; rewrite !length_app; lia).
  destruct (taken (m_tail m)) eqn:Et.
  - destruct (rest (m_tail m)) as [|c tl] eqn:Er; [reflexivity|].
    simpl in Hlen. apply IH; lia.
  - apply IH; lia.
Qed.

End Fuel.

(** ** The card number, branch by branch *)

Lemma strip_trimmed (s : str) :
  stops is_space s = true -> stops is_space (rev s) = true -> PyStr.strip s = s.
Proof.
  intros H1 H2. unfold PyStr.strip, PyStr.rstrip.
  assert (E1 : PyStr.lstrip s = s).
  { destruct s as [|c t]; [reflexivity|]. cbn [stops] in H1. cbn [PyStr.lstrip].
    destruct (is_space c); [discriminate H1 | reflexivity]. }
  rewrite E1.
  assert (E2 : PyStr.lstrip (rev s) = rev s).
  { destruct (rev s) as [|c t]; [reflexivity|]. cbn [stops] in H2. cbn [PyStr.lstrip].
    destruct (is_space c); [discriminate H2 | reflexivity]. }
  rewrite E2. apply rev_involutive.
Qed.

Lemma digits_stop_space (s : str) : forallb is_digit s = true -> stops is_space s = true.
Proof.
  destruct s as [|c t]; [reflexivity|]. cbn [forallb stops]. intros H. apply andb_prop in H.
  destruct H as [H _]. destruct (is_space c) eqn:E; [|reflexivity].
  apply space_not_digit in E. congruence.
Qed.

Lemma strip_four_digits (d : str) : is_four_digits d = true -> PyStr.strip d = d.
Proof.
  unfold is_four_digits. intros H. apply andb_prop in H. destruct H as [_ H].
  apply strip_trimmed; apply digits_stop_space; [exact H|].
  now apply forallb_rev.
Qed.

Lemma masked_group m s a :
  lies_at false m masked_re s a ->
  exists g, group m 2 = Some g /\ is_four_digits g = true.
Proof.
  intros (_ & HS & _).
  destruct HS as (cs1 & (w1 & w2 & cs2 & _ & H1 & w3 & g & cs3 & _ & H3 & cs4 & Hg & Hc4) & Hc).
  apply Sem_rep_set in H1. destruct H1 as (_ & _ & _ & ->).
  apply Sem_rep_set in H3. destruct H3 as (_ & _ & _ & ->).
  exists g. unfold group. rewrite Hc. cbn [lookup Nat.eqb]. rewrite Hc4. cbn [lookup Nat.eqb].
  split; [reflexivity|].
  apply digit_run in Hg as Hg'. destruct Hg' as [Hd Hlo].
  apply Sem_rep_set in Hg. destruct Hg as (_ & _ & Hhi & _). simpl in Hhi.
  unfold is_four_digits. apply andb_true_intro. split.
  - apply Nat.eqb_eq. lia.
  - apply forallb_forall. intros c Hc'. eapply Forall_forall in Hd; eassumption.
Qed.

Lemma run_is_four_digits text m :
  In m (finditer false four_digits text) -> is_four_digits (m_whole m) = true.
Proof.
  intros Hm. apply finditer_sound in Hm. destruct Hm as (a & _ & Hm).
  now apply four_digits_match in Hm.
Qed.

(** *** A group changes no match *)

Lemma or_else_none (x y : option answer) :
  or_else x y = None <-> x = None /\ y = None.
Proof. destruct x; cbn; intuition congruence. Qed.

Lemma rep_loop_defined_alike body lo hi :
  defined_alike body ->
  forall fuel n st cs1 cs2 k1 k2,
    (forall st' c1 c2, k1 st' c1 = None <-> k2 st' c2 = None) ->
    (rep_loop body lo hi k1 fuel n st cs1 = None <->
     rep_loop body lo hi k2 fuel n st cs2 = None).
Proof.
  intros Hb. induction fuel as [|fuel IH]; intros n st cs1 cs2 k1 k2 Hk;
    cbn [rep_loop]; [tauto|].
  rewrite !or_else_none.
  assert (H1 : (if below n hi
                then body st cs1 (fun st1 cs1' =>
                       if Nat.ltb (taken st) (taken st1)
                       then rep_loop body lo hi k1 fuel (S n) st1 cs1' else None)
                else None) = None <->
               (if below n hi
                then body st cs2 (fun st1 cs1' =>
                       if Nat.ltb (taken st) (taken st1)
                       then rep_loop body lo hi k2 fuel (S n) st1 cs1' else None)
                else None) = None).
  { destruct (below n hi); [|tauto]. apply Hb. intros st' c1 c2.
    destruct (Nat.ltb (taken st) (taken st')); [now apply IH | tauto]. }
  assert (H2 : (if Nat.leb lo n then k1 st cs1 else None) = None <->
               (if Nat.leb lo n then k2 st cs2 else None) = None).
  { destruct (Nat.leb lo n); [apply Hk | tauto]. }
  tauto.
Qed.

Lemma rmatch_defined_alike (ic : bool) (r : regex) : defined_alike (rmatch ic r).
Proof.
  induction r as [ | p | items | a IHa b IHb | a IHa b IHb | lo hi a IHa | i a IHa | | | ];
    intros st cs1 cs2 k1 k2 Hk; cbn [rmatch].
  - apply Hk.
  - destruct (rest st) as [|c tl]; [tauto|]. destruct (chr_eq ic p c); [apply Hk | tauto].
  - destruct (rest st) as [|c tl]; [tauto|]. destruct (set_eq ic items c); [apply Hk | tauto].
  - apply IHa. intros st' c1 c2. now apply IHb.
  - rewrite !or_else_none. pose proof (IHa st cs1 cs2 k1 k2 Hk).
    pose proof (IHb st cs1 cs2 k1 k2 Hk). tauto.
  - now apply rep_loop_defined_alike.
  - apply IHa. intros st' c1 c2. apply Hk.
  - destruct (at_boundary st); [apply Hk | tauto].
  - destruct (at_start st); [apply Hk | tauto].
  - destruct (at_end st); [apply Hk | tauto].
Qed.

Lemma match_here_group ic i r p s at_ :
  match_here ic (Grp i r) p s at_ = None <-> match_here ic r p s at_ = None.
Proof.
  unfold match_here.
  assert (H : rmatch ic (Grp i r) (mkState p s 0) [] (fun st cs => Some (st, cs)) = None <->
              rmatch ic r (mkState p s 0) [] (fun st cs => Some (st, cs)) = None).
  { cbn [rmatch]. apply rmatch_defined_alike. intros st' c1 c2. split; discriminate. }
  destruct (rmatch ic (Grp i r) (mkState p s 0) [] (fun st cs => Some (st, cs))) as [[st cs]|];
    destruct (rmatch ic r (mkState p s 0) [] (fun st cs => Some (st, cs))) as [[st' cs']|];
    split; intros E; try reflexivity; try discriminate E;
    destruct H as [H1 H2]; [discriminate (H2 eq_refl) | discriminate (H1 eq_refl)].
Qed.

Lemma search_from_group ic i r s : forall p at_,
  search_from ic (Grp i r) p s at_ = None <-> search_from ic r p s at_ = None.
Proof.
  induction s as [|c tl IH]; intros p at_; rewrite (search_from_eq ic (Grp i r)),
    (search_from_eq ic r); pose proof (fun s => match_here_group ic i r p s at_) as H.
  - specialize (H []).
    destruct (match_here ic (Grp i r) p [] at_), (match_here ic r p [] at_);
      intuition congruence.
  - specialize (H (c :: tl)). specialize (IH (Some c) (S at_)).
    destruct (match_here ic (Grp i r) p (c :: tl) at_), (match_here ic r p (c :: tl) at_);
      intuition congruence.
Qed.

Lemma finditer_nil ic r s : finditer ic r s = [] <-> search ic r s = None.
Proof.
  split; [|apply search_none_finditer].
  intros H. destruct (search ic r s) as [m|] eqn:E; [|reflexivity].
  apply finditer_head in E. destruct E as (tl & E). congruence.
Qed.

Lemma finditer_group_nil ic i r s :
  finditer ic (Grp i r) s = [] <-> finditer ic r s = [].
Proof. rewrite !finditer_nil. apply search_from_group. Qed.

(** *** The run nearest to a keyword *)

Lemma fold_closer_pairs (pos : nat) : forall runs acc,
  fold_left closer_pair (map (pair pos) runs) acc = fold_left (closer pos) runs acc.
Proof. induction runs as [|m runs IH]; intros acc; cbn; [reflexivity | apply IH]. Qed.

Lemma nearest_as_one_loop (runs : list mobj) : forall positions acc,
  fold_left (fun acc pos => fold_left (closer pos) runs acc) positions acc =
  fold_left closer_pair (list_prod positions runs) acc.
Proof.
  induction positions as [|pos positions IH]; intros acc; cbn [fold_left list_prod];
    [reflexivity|].
  rewrite fold_left_app, fold_closer_pairs. apply IH.
Qed.

Lemma nearest_fold : forall pairs acc,
  match fold_left closer_pair pairs acc with
  | None => acc = None /\ pairs = []
  | Some b =>
      (acc = Some b \/ exists pm, In pm pairs /\ b = (m_whole (snd pm), distance pm)) /\
      (forall pm, In pm pairs -> (snd b <= distance pm)%nat) /\
      (forall b0, acc = Some b0 -> (snd b <= snd b0)%nat)
  end.
Proof.
  induction pairs as [|pm pairs IH]; intros acc; cbn [fold_left].
  - destruct acc as [b|]; [|now split].
    split; [now left|]. split; [intros pm []|]. intros b0 H. inversion H. lia.
  - specialize (IH (closer_pair acc pm)).
    destruct (fold_left closer_pair pairs (closer_pair acc pm)) as [b|].
    + destruct IH as (Hfrom & Hmin & Hacc).
      assert (Hstep : (snd b <= distance pm)%nat /\
                      (forall b0, acc = Some b0 -> (snd b <= snd b0)%nat) /\
                      (closer_pair acc pm = acc \/
                       closer_pair acc pm = Some (m_whole (snd pm), distance pm))).
      { unfold closer_pair, closer in *. fold (distance pm) in *.
        destruct acc as [[d0 best0]|].
        - destruct (Nat.ltb (distance pm) best0) eqn:E.
          + specialize (Hacc _ eq_refl). cbn [snd] in Hacc. apply Nat.ltb_lt in E.
            split; [lia|]. split; [|now right].
            intros b0 H. inversion H. cbn [snd]. lia.
          + specialize (Hacc _ eq_refl). cbn [snd] in Hacc. apply Nat.ltb_ge in E.
            split; [lia|]. split; [|now left].
            intros b0 H. inversion H. cbn [snd]. lia.
        - specialize (Hacc _ eq_refl). cbn [snd] in Hacc.
          split; [lia|]. split; [discriminate | now right]. }
      destruct Hstep as (H1 & H2 & H3). split; [|split; [|exact H2]].
      * destruct Hfrom as [Hfrom | (pm' & Hin & Hb)].
        -- destruct H3 as [H3 | H3]; rewrite H3 in Hfrom.
           ++ now left.
           ++ right. exists pm. split; [now left|]. now inversion Hfrom.
        -- right. exists pm'. split; [now right | exact Hb].
      * intros pm' [<- | Hin]; [exact H1 | now apply Hmin].
    + destruct IH as [IH _]. unfold closer_pair, closer in IH.
      destruct acc as [[d0 best0]|]; [destruct (Nat.ltb _ best0)|]; discriminate.
Qed.

Lemma nearest_to_cards_spec text positions :
  let runs := finditer false four_digits text in
  match nearest_to_cards text positions with
  | None => positions = [] \/ runs = []
  | Some d =>
      exists pos m, In pos positions /\ In m runs /\ d = m_whole m /\
        forall pos' m', In pos' positions -> In m' runs ->
          (abs_diff (m_start m) pos <= abs_diff (m_start m') pos')%nat
  end.
Proof.
  cbv zeta. unfold nearest_to_cards. rewrite nearest_as_one_loop.
  pose proof (nearest_fold (list_prod positions (finditer false four_digits text)) None) as H.
  destruct (fold_left closer_pair _ None) as [[d best]|]; cbn [option_map fst].
  - destruct H as (Hfrom & Hmin & _).
    destruct Hfrom as [Hfrom | ([pos m] & Hin & Hb)]; [discriminate|].
    apply in_prod_iff in Hin. destruct Hin as [Hp Hm].
    inversion Hb; subst d best. exists pos, m. repeat split; try assumption.
    intros pos' m' Hp' Hm'.
    apply (Hmin (pos', m')). now apply in_prod.
  - destruct H as [_ H]. destruct positions as [|pos positions]; [now left|]. right.
    destruct (finditer false four_digits text) as [|m runs]; [reflexivity|].
    discriminate H.
Qed.



Lemma non_years_spec (ms : list mobj) : forall cands,
  non_years ms = Ok cands ->
  cands = map (fun m => (m_start m, m_whole m))
            (filter (fun m => negb (reads_as_year (m_whole m))) ms).
Proof.
  induction ms as [|m ms IH]; intros cands; cbn [non_years filter map].
  - intros H. now inversion H.
  - unfold reads_as_year at 1. destruct (PyStr.int (m_whole m)) as [v|]; [|discriminate].
    destruct (non_years ms) as [cs|e]; [|discriminate]. cbn [bind].
    specialize (IH cs eq_refl). intros H. inversion H.
    destruct (negb (is_year v)); cbn [map]; now rewrite IH.
Qed.



Lemma possible_last4_four_digits text lower d :
  possible_last4 text lower = Ok (Some d) -> is_four_digits d = true.
Proof.
  unfold possible_last4.
  destruct (search false masked_re text) as [m|] eqn:Es.
  - apply search_sound in Es. destruct Es as (a & _ & Es).
    apply masked_group in Es. destruct Es as (g & Eg & Hg). rewrite Eg.
    intros H. inversion H; subst. exact Hg.
  - destruct (map (fun m => group m 1) (finditer false four_digits_group text));
      [discriminate|].
    destruct (map m_start (finditer false card_re lower)) as [|pos positions].
    + destruct (non_years (finditer false four_digits text)) as [cands|e] eqn:En;
        [|discriminate].
      apply non_years_spec in En. cbn [bind].
      destruct cands as [|c cs]; [discriminate|]. intros H. inversion H; subst d.
      assert (Hin : In c (c :: cs)) by now left.
      rewrite En in Hin. apply in_map_iff in Hin. destruct Hin as (m & <- & Hin).
      apply filter_In in Hin. cbn [snd]. apply (@run_is_four_digits text). tauto.
    + pose proof (nearest_to_cards_spec text (pos :: positions)) as Hn. cbv zeta in Hn.
      intros H. inversion H as [H']. rewrite H' in Hn.
      destruct Hn as (_ & m & _ & Hm & -> & _). now apply (@run_is_four_digits text).
Qed.



(** ** Amounts and the digits of a text *)

Lemma search_amount_none (s : str) :
  search false AMOUNT_RE s = None <-> existsb is_digit s = false.
Proof.
  split.
  - intros H. destruct (existsb is_digit s) eqn:E; [|reflexivity].
    now apply (search_finds_amount s None O) in E.
  - intros H. destruct (search false AMOUNT_RE s) as [m|] eqn:E; [|reflexivity].
    apply search_sound in E. destruct E as (a & _ & E).
    destruct (amount_group_chars E) as (g & Hg & _ & c & t & -> & Hc).
    destruct (amount_group E) as (g' & Hg' & _ & Hin & _).
    assert (g' = c :: t) by congruence. subst g'.
    rewrite (infix_has_digit Hc Hin) in H. discriminate.
Qed.

Lemma currency_consumes :
  consumes false (fun c => is_digit c = false) (opt currency +> star space).
Proof.
  cbn [consumes opt star currency word chars lit map list_ascii_of_string ch].
  repeat split; intros c H; try (apply N.eqb_eq in H; subst c; reflexivity).
  cbn in H. rewrite orb_false_r in H. now apply space_not_digit.
Qed.

(** The first amount of a text starts at its first digit. *)
Lemma search_amount_first_digit : forall s p at_ m,
  search_from false AMOUNT_RE p s at_ = Some m ->
  exists a, lies_at false m AMOUNT_RE s a /\ no_digit a.
Proof.
  induction s as [|c tl IH]; intros p at_ m; rewrite search_from_eq.
  - destruct (match_here false AMOUNT_RE p [] at_) as [m'|] eqn:E; [|discriminate].
    intros H. inversion H; subst m'. apply match_here_sound in E.
    exists []. split; [tauto | constructor].
  - destruct (match_here false AMOUNT_RE p (c :: tl) at_) as [m'|] eqn:E.
    + intros H. inversion H; subst m'. apply match_here_sound in E.
      exists []. split; [tauto | constructor].
    + intros H. apply IH in H. destruct H as (a & (Hs & HS & Ht) & Ha).
      exists (c :: a). split.
      * split; [|split; assumption]. cbn [app]. now rewrite <- Hs.
      * constructor; [|exact Ha]. destruct (is_digit c) eqn:Hc; [|reflexivity].
        now apply (amount_at_digit p c tl at_) in Hc.
Qed.

Lemma find_amount_near_none (text : str) (start window : nat) :
  find_amount_near text start window = None <->
  existsb is_digit (PyStr.slice text start (start + window)) = false.
Proof.
  unfold find_amount_near. rewrite <- search_amount_none.
  destruct (search false AMOUNT_RE (PyStr.slice text start (start + window)))
    as [m|] eqn:E; [|tauto].
  apply search_sound in E. destruct E as (a & _ & E).
  apply amount_group in E. destruct E as (g & -> & _). split; discriminate.
Qed.

Lemma find_amount_near_window (text : str) (start window : nat) (g : str) :
  find_amount_near text start window = Some g ->
  exists pre c u post,
    PyStr.slice text start (start + window) = pre ++ g ++ post /\ no_digit pre /\
    g = c :: u /\ is_digit c = true /\ forallb amount_char u = true.
Proof.
  unfold find_amount_near.
  destruct (search false AMOUNT_RE (PyStr.slice text start (start + window)))
    as [m|] eqn:E; [|discriminate].
  apply search_amount_first_digit in E. destruct E as (a & E & Ha).
  destruct (amount_group_chars E) as (g' & Hg' & Hchars & c & u & -> & Hc).
  rewrite Hg'. intros H. inversion H; subst g.
  destruct E as (Hs & HS & _).
  destruct HS as (w1 & w' & cs1 & Hw & H1 & w2 & g' & cs2 & Hw' & H2 & cs3 & Hsem & Hcaps).
  assert (g' = c :: u)
    by (unfold group in Hg'; rewrite Hcaps in Hg'; cbn in Hg'; congruence).
  subst g'.
  assert (Hpre : no_digit (w1 ++ w2)).
  { apply (@Sem_consumes false (fun c => is_digit c = false) _ currency_consumes
             (w1 ++ w2) [] cs2).
    exists w1, w2, cs1. repeat split; assumption. }
  exists (a ++ w1 ++ w2), c, u, (rest (m_tail m)). repeat split.
  - rewrite Hs, Hw, Hw'. now rewrite <- !app_assoc.
  - apply Forall_app. split; assumption.
  - exact Hc.
  - cbn [forallb] in Hchars. apply andb_prop in Hchars. tauto.
Qed.



(** ** The candidates follow the text *)

Lemma occur_in_order_later (ds : list str) (x b : str) :
  occur_in_order ds b -> occur_in_order ds (x ++ b).
Proof.
  destruct ds as [|d ds]; [trivial|]. intros (a & b' & -> & H).
  exists (x ++ a), b'. split; [now rewrite <- app_assoc | exact H].
Qed.

Lemma finditer_from_in_order ic r (f : mobj -> str) :
  (forall m s a, lies_at ic m r s a -> is_infix (f m) (m_whole m)) ->
  forall fuel p s at_,
    occur_in_order (map f (finditer_from fuel ic r p s at_)) s.
Proof.
  intros Hf. induction fuel as [|fuel IH]; intros p s at_; cbn [finditer_from map];
    [exact I|].
  destruct (search_from ic r p s at_) as [m|] eqn:E; [|exact I].
  apply search_from_sound in E. destruct E as (a & _ & E).
  pose proof (Hf _ _ _ E) as (x & y & Hx). destruct E as (Hs & _ & _).
  cbn [map occur_in_order]. exists (a ++ x), (y ++ rest (m_tail m)). split.
  - rewrite Hs, Hx. now rewrite <- !app_assoc.
  - apply occur_in_order_later.
    destruct (taken (m_tail m)); [destruct (rest (m_tail m)) as [|c tl]|].
    + exact I.
    + apply (occur_in_order_later _ [c]). apply IH.
    + apply IH.
Qed.

Lemma candidate_amounts_groups : forall ms l,
  candidate_amounts ms = Ok l ->
  exists gs, l = map clean_amount gs /\ map (fun m => group m 1) ms = map Some gs.
Proof.
  induction ms as [|m ms IH]; intros l; cbn [candidate_amounts].
  - intros H. inversion H. now exists [].
  - destruct (group m 1) as [g|] eqn:Eg; [|discriminate].
    destruct (candidate_amounts ms) as [l'|]; [|discriminate]. cbn [bind].
    intros H. inversion H. destruct (IH l' eq_refl) as (gs & -> & Hgs).
    exists (g :: gs). cbn [map]. now rewrite Eg, Hgs.
Qed.

(** X6: the candidate dates are substrings of the text that follow each
    other in it without overlap, and so are the numerals of the candidate
    amounts. *)
Theorem candidates_in_text_order (text : str) :
  exists r, extract_datapoints_from_text text = Ok r /\
    occur_in_order (dates (candidates r)) text /\
    exists gs, amounts (candidates r) = map clean_amount gs /\
               occur_in_order gs text.
Proof.
  destruct (extract_never_raises text) as (r & H). exists r. split; [exact H|].
  apply extract_fields in H. destruct H as (_ & _ & _ & _ & _ & Hd & Ha).
  split.
  - rewrite Hd. apply finditer_from_in_order. intros m s a _. apply is_infix_refl.
  - apply candidate_amounts_groups in Ha. destruct Ha as (gs & Hl & Hgs).
    exists gs. split; [exact Hl|].
    pose proof (@finditer_from_in_order false AMOUNT_RE
                  (fun m => match group m 1 with Some g => g | None => [] end)) as Ho.
    assert (E : map (fun m => match group m 1 with Some g => g | None => [] end)
                  (finditer false AMOUNT_RE text) = gs).
    { clear -Hgs. revert gs Hgs.
      induction (finditer false AMOUNT_RE text) as [|m ms IH]; intros [|g gs] Hgs;
        try discriminate; [reflexivity|].
      cbn [map] in *. inversion Hgs as [[H1 H2]]. unfold group at 1. rewrite H1.
      f_equal. now apply IH. }
    rewrite <- E. apply Ho. intros m s a Hm.
    destruct Hm as (_ & HS & _).
    destruct HS as (w1 & w' & cs1 & Hw & H1 & w2 & g' & cs2 & Hw' & H2 & cs3 & Hsem & Hcaps).
    unfold group. rewrite Hcaps. cbn [lookup Nat.eqb].
    exists (w1 ++ w2), []. rewrite Hw, Hw', app_nil_r. now rewrite <- app_assoc.
Qed.

(** ** The total and its label *)

Lemma truthy_some (o : option str) : PyStr.truthy o = true -> exists s, o = Some s.
Proof. destruct o as [s|]; [eauto | discriminate]. Qed.

Lemma total_inner_spec (lower : str) (ms : list mobj) (a : str) :
  total_inner lower ms = Some a ->
  exists m g, In m ms /\ find_amount_near lower (m_end m) 200 = Some g /\
              a = clean_amount g.
Proof.
  induction ms as [|m ms IH]; cbn [total_inner]; [discriminate|].
  destruct (PyStr.truthy (find_amount_near lower (m_end m) 200)) eqn:Et.
  - apply truthy_some in Et. destruct Et as (g & Eg). rewrite Eg. cbn [option_map].
    intros H. inversion H. exists m, g. split; [now left|]. now split.
  - intros H. destruct (IH H) as (m' & g & Hin & Hrest). exists m', g.
    split; [now right | exact Hrest].
Qed.

Lemma total_outer_spec (lower : str) (kws : list regex) (a : str) :
  total_outer lower kws = Some a ->
  exists kw m g, In kw kws /\ In m (finditer false kw lower) /\
                 find_amount_near lower (m_end m) 200 = Some g /\ a = clean_amount g.
Proof.
  induction kws as [|kw kws IH]; cbn [total_outer]; [discriminate|].
  destruct (total_inner lower (finditer false kw lower)) as [a'|] eqn:E.
  - intros H. inversion H; subst a'. apply total_inner_spec in E.
    destruct E as (m & g & Hin & Hrest). exists kw, m, g. split; [now left|].
    split; [exact Hin | exact Hrest].
  - intros H. destruct (IH H) as (kw' & m & g & Hin & Hrest). exists kw', m, g.
    split; [now right | exact Hrest].
Qed.

Lemma total_fallback_spec (text : str) (ms : list mobj) (a : str) :
  total_fallback text ms = Some a ->
  exists m g, In m ms /\ find_amount_near text (m_start m) 300 = Some g /\
              a = clean_amount g.
Proof.
  induction ms as [|m ms IH]; cbn [total_fallback]; [discriminate|].
  destruct (PyStr.truthy (find_amount_near text (m_start m) 300)) eqn:Et.
  - apply truthy_some in Et. destruct Et as (g & Eg). rewrite Eg. cbn [option_map].
    intros H. inversion H. exists m, g. split; [now left|]. now split.
  - intros H. destruct (IH H) as (m' & g & Hin & Hrest). exists m', g.
    split; [now right | exact Hrest].
Qed.



(** ** No field without its keyword *)

Lemma starts_with_app (d b : str) : starts_with d (d ++ b) = true.
Proof.
  induction d as [|x d IH]; cbn [starts_with app]; [reflexivity|].
  now rewrite N.eqb_refl, IH.
Qed.

Lemma contains_infix (d s : str) : is_infix d s -> contains d s = true.
Proof.
  intros (a & b & ->). induction a as [|x a IH].
  - cbn [app]. destruct (d ++ b) eqn:E; cbn [contains]; rewrite <- E, starts_with_app;
      reflexivity.
  - cbn [app contains]. rewrite IH. apply orb_true_r.
Qed.

Lemma Sem_chars (x : str) : forall w cs cs',
  Sem false (chars x) w cs cs' -> w = x /\ cs' = cs.
Proof.
  induction x as [|c t IH]; intros w cs cs'; [cbn; tauto|].
  destruct t as [|c' t].
  - cbn [chars Sem]. intros (c0 & -> & Hc & ->). cbn in Hc. apply N.eqb_eq in Hc.
    now subst.
  - change (chars (c :: c' :: t)) with (Cat (Chr c) (chars (c' :: t))). cbn [Sem].
    intros (w1 & w2 & cs1 & -> & (c0 & -> & Hc & ->) & H2).
    cbn in Hc. apply N.eqb_eq in Hc. apply IH in H2. destruct H2 as [-> ->].
    now subst.
Qed.

Lemma mentions_here (x : string) (b : regex) : mentions (lit x) (word x +> b).
Proof.
  intros w cs cs' (w1 & w2 & cs1 & -> & H1 & _). apply Sem_chars in H1.
  destruct H1 as [-> _]. now exists [], w2.
Qed.

Lemma mentions_word (x : string) : mentions (lit x) (word x).
Proof.
  intros w cs cs' H. apply Sem_chars in H. destruct H as [-> _]. apply is_infix_refl.
Qed.

Lemma mentions_later (d : str) (a b : regex) : mentions d b -> mentions d (a +> b).
Proof.
  intros Hb w cs cs' (w1 & w2 & cs1 & -> & _ & H2). apply Hb in H2.
  destruct H2 as (x & y & ->). exists (w1 ++ x), y. now rewrite <- app_assoc.
Qed.

Lemma mentions_alt (d : str) (a b : regex) :
  mentions d a -> mentions d b -> mentions d (a <|> b).
Proof. intros Ha Hb w cs cs' [H | H]; [eapply Ha | eapply Hb]; exact H. Qed.

Lemma mentions_group (d : str) (i : nat) (a : regex) : mentions d a -> mentions d (Grp i a).
Proof. intros Ha w cs cs' (cs1 & H & _). eapply Ha; exact H. Qed.

Lemma no_mention_no_match (d : str) (r : regex) (s : str) :
  mentions d r -> contains d s = false -> finditer false r s = [].
Proof.
  intros Hr Hc. destruct (finditer false r s) as [|m ms] eqn:E; [reflexivity|].
  assert (Hm : In m (finditer false r s)) by (rewrite E; now left).
  apply finditer_sound in Hm. destruct Hm as (a & _ & Hs & HS & _).
  apply Hr in HS. rewrite contains_infix in Hc; [discriminate|].
  eapply is_infix_trans; [exact HS|]. exists a, (rest (m_tail m)). exact Hs.
Qed.

Lemma total_keywords_mention : Forall (mentions (lit "total")) total_keywords.
Proof.
  unfold total_keywords, total_due_re.
  repeat (constructor; [first [ apply mentions_here
                              | apply mentions_later, mentions_later, mentions_here ]|]).
  constructor.
Qed.

Lemma due_patterns_mention : Forall (mentions (lit "due")) due_patterns.
Proof.
  unfold due_patterns, payment_due_date_re, due_date_re, payment_due_re.
  repeat (constructor; [first [ apply mentions_here
                              | apply mentions_later, mentions_later, mentions_here
                              | apply mentions_later, mentions_later, mentions_word ]|]).
  constructor.
Qed.

Lemma statement_patterns_mention : Forall (mentions (lit "statement")) statement_patterns.
Proof.
  unfold statement_patterns. repeat (constructor; [apply mentions_here|]). constructor.
Qed.

Lemma total_outer_none (lower : str) (kws : list regex) :
  Forall (fun kw => finditer false kw lower = []) kws -> total_outer lower kws = None.
Proof.
  induction 1 as [|kw kws Hkw _ IH]; cbn [total_outer]; [reflexivity|].
  now rewrite Hkw.
Qed.

Lemma due_outer_none (text lower : str) (pats : list regex) :
  Forall (fun pat => finditer false pat lower = []) pats ->
  due_outer text lower None pats = None.
Proof.
  induction 1 as [|pat pats Hpat _ IH]; cbn [due_outer]; [reflexivity|].
  now rewrite Hpat.
Qed.

Lemma statement_outer_none (text lower : str) (pats : list regex) :
  Forall (fun pat => finditer false pat lower = []) pats ->
  statement_outer text lower None pats = None.
Proof.
  induction 1 as [|pat pats Hpat _ IH]; cbn [statement_outer]; [reflexivity|].
  now rewrite Hpat.
Qed.

(** X8: a field whose keyword occurs nowhere in the text, in any letter
    case, is absent: [total] for the total amount due, [due] for the payment
    due date, [statement] for the statement date. *)
Theorem no_field_without_keyword (text : str) (r : ExtractionResult) :
  extract_datapoints_from_text text = Ok r ->
  (contains (lit "total") (PyStr.lower text) = false -> total_amount_due r = None) /\
  (contains (lit "due") (PyStr.lower text) = false -> payment_due_date r = None) /\
  (contains (lit "statement") (PyStr.lower text) = false -> statement_date r = None).
Proof.
  intros H. apply extract_fields in H. cbv zeta in H.
  destruct H as (_ & Ht & Hd & Hs & _). rewrite Ht, Hd, Hs.
  split; [|split]; intros Hc.
  - unfold find_total_amount_due. rewrite total_outer_none.
    + cbn [PyStr.truthy negb].
      rewrite (@no_mention_no_match (lit "total") total_fallback_re); [reflexivity| |exact Hc].
      apply mentions_group, mentions_alt; apply mentions_here.
    + eapply Forall_impl; [|apply total_keywords_mention].
      intros kw Hkw. now apply (@no_mention_no_match (lit "total")).
  - apply due_outer_none. eapply Forall_impl; [|apply due_patterns_mention].
    intros kw Hkw. now apply (@no_mention_no_match (lit "due")).
  - apply statement_outer_none. eapply Forall_impl; [|apply statement_patterns_mention].
    intros kw Hkw. now apply (@no_mention_no_match (lit "statement")).
Qed.

Lemma no_field_without_keyword_witness :
  extract_datapoints_from_text (lit "Amount payable 1,250.00 by 12 Feb 2024")
  = Ok (mkResult None None None None None
          (mkCandidates [lit "12 Feb 2024"] [lit "1250.00"; lit "12"; lit "202"; lit "4"])) /\
  (contains (lit "total") (PyStr.lower (lit "Amount payable 1,250.00 by 12 Feb 2024")) = false ->
   total_amount_due (mkResult None None None None None
          (mkCandidates [lit "12 Feb 2024"] [lit "1250.00"; lit "12"; lit "202"; lit "4"]))
   = None) /\
  (contains (lit "due") (PyStr.lower (lit "Amount payable 1,250.00 by 12 Feb 2024")) = false ->
   payment_due_date (mkResult None None None None None
          (mkCandidates [lit "12 Feb 2024"] [lit "1250.00"; lit "12"; lit "202"; lit "4"]))
   = None) /\
  (contains (lit "statement") (PyStr.lower (lit "Amount payable 1,250.00 by 12 Feb 2024")) = false ->
   statement_date (mkResult None None None None None
          (mkCandidates [lit "12 Feb 2024"] [lit "1250.00"; lit "12"; lit "202"; lit "4"]))
   = None).
Proof.
  assert (H : extract_datapoints_from_text (lit "Amount payable 1,250.00 by 12 Feb 2024")
              = Ok (mkResult None None None None None
                      (mkCandidates [lit "12 Feb 2024"]
                         [lit "1250.00"; lit "12"; lit "202"; lit "4"])))
    by (vm_compute; reflexivity).
  split; [exact H|].
  exact (@no_field_without_keyword (lit "Amount payable 1,250.00 by 12 Feb 2024") _ H).
Defined.

(** ** The date fields *)

Lemma search_from_here ic r s p at_ m :
  search_from ic r p s at_ = Some m ->
  exists pre s', s = pre ++ s' /\
    match_here ic r (before p pre) s' (at_ + List.length pre) = Some m.
Proof.
  intros H. destruct (search_from_sound _ _ _ _ _ H) as (a & Hst & Hs & _).
  exists a, (m_whole m ++ rest (m_tail m)). split; [exact Hs|].
  apply search_from_at; [now rewrite <- Hs | exact Hst].
Qed.

(** *** Literal words *)

Lemma rmatch_chars ic (x : str) : forall st cs k,
  rmatch ic (chars x) st cs k =
  if prefix_eq ic x (rest st)
  then k (skip_run (firstn (List.length x) (rest st))
            (skipn (List.length x) (rest st)) st) cs
  else None.
Proof.
  induction x as [|p t IH]; intros st cs k; [reflexivity|].
  assert (E : rmatch ic (chars (p :: t)) st cs k =
              rmatch ic (Chr p) st cs (fun st1 cs1 => rmatch ic (chars t) st1 cs1 k))
    by (destruct t; reflexivity).
  rewrite E. cbn [rmatch prefix_eq List.length]. destruct (rest st) as [|c tl] eqn:Er;
    [reflexivity|].
  destruct (chr_eq ic p c); [|reflexivity]. cbn [andb]. rewrite IH.
  cbn [advance rest firstn skipn skip_run]. now rewrite firstn_skipn.
Qed.

Lemma prefix_eq_app ic (x y s : str) :
  prefix_eq ic (x ++ y) s = true -> prefix_eq ic x s = true.
Proof.
  revert s. induction x as [|p x IH]; intros s; [reflexivity|].
  destruct s as [|c s]; cbn [app prefix_eq]; [discriminate|].
  intros H. apply andb_prop in H. destruct H as [H1 H2].
  rewrite H1. now apply IH.
Qed.

Lemma prefix_eq_length ic (x s : str) :
  prefix_eq ic x s = true -> List.length (firstn (List.length x) s) = List.length x.
Proof.
  revert s. induction x as [|p x IH]; intros s; [reflexivity|].
  destruct s as [|c s]; cbn [prefix_eq]; [discriminate|].
  intros H. apply andb_prop in H. destruct H as [_ H]. cbn [List.length firstn].
  f_equal. now apply IH.
Qed.

Lemma prefix_eq_lower (x s : str) :
  PyStr.lower x = x -> prefix_eq true x s = true ->
  PyStr.lower (firstn (List.length x) s) = x.
Proof.
  revert s. induction x as [|p x IH]; intros s Hx; [reflexivity|].
  destruct s as [|c s]; cbn [prefix_eq]; [discriminate|].
  intros H. apply andb_prop in H. destruct H as [H1 H2].
  cbn [PyStr.lower map] in Hx. inversion Hx as [[Hp Hx']].
  cbn [List.length firstn PyStr.lower map]. unfold chr_eq in H1. apply N.eqb_eq in H1.
  rewrite H1, !Hp. f_equal. rewrite Hx'. apply IH; [exact Hx' | exact H2].
Qed.

(** *** The word for an immediate payment

    The first alternative of the pattern is a prefix of the other three:
    whenever one of them matches, the first one does, and it is the match. *)
Lemma first_word_wins ic (i : nat) (x : str) (alts : regex) p s at_ m :
  prefix_eq ic x s = true ->
  match_here ic (Grp i (chars x <|> alts)) p s at_ = Some m ->
  m_whole m = firstn (List.length x) s.
Proof.
  intros E. unfold match_here. cbn [rmatch]. rewrite rmatch_chars. cbn [rest].
  rewrite E. cbn [or_else]. intros H. injection H as Hm. rewrite <- Hm. cbn [m_whole].
  rewrite skip_run_taken. cbn [taken Nat.add]. rewrite (prefix_eq_length _ _ _ E).
  reflexivity.
Qed.

Lemma immediate_match (p : option char) (s : str) (at_ : nat) (m : mobj) :
  match_here true immediate_re p s at_ = Some m ->
  PyStr.lower (m_whole m) = lit "immediat".
Proof.
  destruct (prefix_eq true (lit "immediat") s) eqn:E1.
  - intros H. unfold immediate_re, word in H.
    rewrite (@first_word_wins _ _ _ _ _ _ _ _ E1 H). now apply prefix_eq_lower.
  - assert (E2 : prefix_eq true (lit "immediate") s = false).
    { destruct (prefix_eq true (lit "immediate") s) eqn:E; [|reflexivity].
      apply (prefix_eq_app true (lit "immediat") (lit "e")) in E. congruence. }
    assert (E3 : prefix_eq true (lit "immediately") s = false).
    { destruct (prefix_eq true (lit "immediately") s) eqn:E; [|reflexivity].
      apply (prefix_eq_app true (lit "immediat") (lit "ely")) in E. congruence. }
    unfold match_here, immediate_re, word. cbn [rmatch]. rewrite !rmatch_chars.
    cbn [rest]. rewrite E1, E2, E3. discriminate.
Qed.

Lemma letter_not_space (x : char) : 65 <= x <= 122 -> is_space x = false.
Proof.
  intros Hx. unfold is_space, whitespace. cbn [existsb].
  repeat match goal with
         | |- context [x =? ?n] => rewrite (proj2 (N.eqb_neq x n)) by lia
         end.
  reflexivity.
Qed.

Lemma is_space_lower (c : char) : is_space (lower_char c) = is_space c.
Proof.
  unfold lower_char. destruct (is_upper c) eqn:E; [|reflexivity].
  unfold is_upper, in_range in E. apply andb_prop in E. destruct E as [E1 E2].
  apply N.leb_le in E1. apply N.leb_le in E2.
  rewrite !letter_not_space by lia. reflexivity.
Qed.

Lemma lstrip_lower (s : str) : PyStr.lower (PyStr.lstrip s) = PyStr.lstrip (PyStr.lower s).
Proof.
  induction s as [|c s IH]; [reflexivity|].
  cbn [PyStr.lstrip PyStr.lower map]. rewrite is_space_lower.
  destruct (is_space c); [exact IH | reflexivity].
Qed.

Lemma strip_lower (s : str) : PyStr.lower (PyStr.strip s) = PyStr.strip (PyStr.lower s).
Proof.
  unfold PyStr.strip, PyStr.rstrip.
  unfold PyStr.lower at 1. rewrite map_rev. fold (PyStr.lower (PyStr.lstrip (rev (PyStr.lstrip s)))).
  rewrite lstrip_lower. unfold PyStr.lower at 1. rewrite map_rev.
  fold (PyStr.lower (PyStr.lstrip s)). now rewrite lstrip_lower.
Qed.

Lemma immediate_found (window : str) (im : mobj) :
  search true immediate_re window = Some im ->
  PyStr.lower (PyStr.strip (m_whole im)) = lit "immediat".
Proof.
  intros H. apply search_from_here in H. destruct H as (pre & s' & _ & H).
  apply immediate_match in H. rewrite strip_lower, H. reflexivity.
Qed.

(** *** Dates have digits *)

Lemma upper_char_digit (c : char) : is_digit (upper_char c) = is_digit c.
Proof.
  unfold upper_char. destruct (is_lower c) eqn:E; [|reflexivity].
  unfold is_lower, is_digit, in_range in *. apply andb_prop in E.
  destruct E as [E1 E2]. apply N.leb_le in E1. apply N.leb_le in E2.
  rewrite (proj2 (N.leb_gt (c - 32) 57)) by lia.
  rewrite (proj2 (N.leb_gt c 57)) by lia. now rewrite !andb_false_r.
Qed.

Lemma sure_digit_run ic (lo hi : nat) : (1 <= lo)%nat -> sure_digit ic (times lo hi digit).
Proof.
  intros Hlo w cs cs' H. apply Sem_rep_set in H. destruct H as (Hf & Hl & _).
  destruct w as [|c w]; [cbn in Hl; lia|]. inversion Hf as [|? ? Hc _].
  unfold has_digit. cbn [existsb].
  assert (Hd : is_digit c = true).
  { unfold set_eq, set_has in Hc. cbn [existsb item_has] in Hc.
    rewrite ?orb_false_r, ?lower_char_digit, ?upper_char_digit in Hc.
    destruct ic; [now rewrite !orb_diag in Hc | exact Hc]. }
  now rewrite Hd.
Qed.

Lemma sure_digit_here ic (a b : regex) : sure_digit ic a -> sure_digit ic (a +> b).
Proof.
  intros Ha w cs cs' (w1 & w2 & cs1 & -> & H1 & _). apply Ha in H1.
  unfold has_digit in *. rewrite existsb_app, H1. reflexivity.
Qed.

Lemma sure_digit_later ic (a b : regex) : sure_digit ic b -> sure_digit ic (a +> b).
Proof.
  intros Hb w cs cs' (w1 & w2 & cs1 & -> & _ & H2). apply Hb in H2.
  unfold has_digit in *. rewrite existsb_app, H2. apply orb_true_r.
Qed.

Lemma sure_digit_alt ic (a b : regex) :
  sure_digit ic a -> sure_digit ic b -> sure_digit ic (a <|> b).
Proof. intros Ha Hb w cs cs' [H | H]; [eapply Ha | eapply Hb]; exact H. Qed.

Lemma sure_digit_group ic (i : nat) (a : regex) : sure_digit ic a -> sure_digit ic (Grp i a).
Proof. intros Ha w cs cs' (cs1 & H & _). eapply Ha; exact H. Qed.

Lemma numeric_date_digit ic : sure_digit ic numeric_date.
Proof. apply sure_digit_here, sure_digit_run. lia. Qed.

Lemma DATE_RE_digit : sure_digit true DATE_RE.
Proof.
  apply sure_digit_group, sure_digit_alt; [|apply sure_digit_alt].
  - apply sure_digit_later, sure_digit_here, numeric_date_digit.
  - apply sure_digit_later, sure_digit_here, sure_digit_here, sure_digit_run. lia.
  - do 4 apply sure_digit_later. apply sure_digit_here, sure_digit_run. lia.
Qed.

Lemma date_range_digit : sure_digit false date_range_re.
Proof. apply sure_digit_group, sure_digit_here, numeric_date_digit. Qed.

Lemma has_digit_lstrip (s : str) : has_digit (PyStr.lstrip s) = has_digit s.
Proof.
  induction s as [|c s IH]; [reflexivity|]. cbn [PyStr.lstrip].
  destruct (is_space c) eqn:E; [|reflexivity].
  unfold has_digit in *. cbn [existsb]. now rewrite (space_not_digit _ E), IH.
Qed.

Lemma has_digit_rev (s : str) : has_digit (rev s) = has_digit s.
Proof.
  unfold has_digit. induction s as [|c s IH]; [reflexivity|].
  cbn [rev existsb]. rewrite existsb_app, IH. cbn [existsb].
  rewrite orb_false_r. apply orb_comm.
Qed.

Lemma has_digit_strip (s : str) : has_digit (PyStr.strip s) = has_digit s.
Proof.
  unfold PyStr.strip, PyStr.rstrip.
  now rewrite has_digit_rev, has_digit_lstrip, has_digit_rev, has_digit_lstrip.
Qed.

Lemma date_found ic r (window : str) (dm : mobj) :
  sure_digit ic r -> search ic r window = Some dm ->
  has_digit (PyStr.strip (m_whole dm)) = true.
Proof.
  intros Hr H. apply search_sound in H. destruct H as (a & _ & _ & HS & _).
  rewrite has_digit_strip. eapply Hr; exact HS.
Qed.

Lemma window_match_in_window ic r (window : str) (m : mobj) :
  search ic r window = Some m -> is_infix (PyStr.strip (m_whole m)) window.
Proof.
  intros H. apply search_whole_infix in H.
  eapply is_infix_trans; [apply strip_infix | exact H].
Qed.

(** *** What the loops over the labels return *)

Lemma due_inner_spec (text : str) (ms : list mobj) : forall pd d,
  due_inner text pd ms = Some d ->
  pd = Some d \/
  exists m, In m ms /\
    is_infix d (PyStr.slice text (m_end m) (m_end m + 140)) /\
    (has_digit d = true \/ PyStr.lower d = lit "immediat").
Proof.
  induction ms as [|m ms IH]; intros pd d; cbn [due_inner]; [now left|].
  destruct (search true DATE_RE _) as [dm|] eqn:E1.
  - intros H. inversion H; subst d. right. exists m. split; [now left|]. split.
    + now apply window_match_in_window in E1.
    + left. eapply date_found; [apply DATE_RE_digit | exact E1].
  - destruct (search true immediate_re _) as [im|] eqn:E2.
    + intros H. inversion H; subst d. right. exists m. split; [now left|]. split.
      * now apply window_match_in_window in E2.
      * right. now apply immediate_found in E2.
    + intros H. apply IH in H. destruct H as [H | (m' & Hin & H)]; [now left|].
      right. exists m'. split; [now right | exact H].
Qed.

Lemma due_outer_spec (text lower : str) (pats : list regex) : forall pd d,
  due_outer text lower pd pats = Some d ->
  pd = Some d \/
  exists pat m, In pat pats /\ In m (finditer false pat lower) /\
    is_infix d (PyStr.slice text (m_end m) (m_end m + 140)) /\
    (has_digit d = true \/ PyStr.lower d = lit "immediat").
Proof.
  induction pats as [|pat pats IH]; intros pd d; cbn [due_outer]; [now left|].
  destruct (PyStr.truthy (due_inner text pd (finditer false pat lower))).
  - intros H. apply due_inner_spec in H. destruct H as [H | (m & Hin & H)]; [now left|].
    right. exists pat, m. split; [now left|]. split; assumption.
  - intros H. apply IH in H. destruct H as [H | (pat' & m & Hp & H)].
    + apply due_inner_spec in H. destruct H as [H | (m & Hin & H)]; [now left|].
      right. exists pat, m. split; [now left|]. split; assumption.
    + right. exists pat', m. split; [now right | exact H].
Qed.

Lemma statement_inner_spec (text : str) (ms : list mobj) : forall sd d,
  statement_inner text sd ms = Some d ->
  sd = Some d \/
  exists m, In m ms /\
    is_infix d (PyStr.slice text (m_end m) (m_end m + 140)) /\ has_digit d = true.
Proof.
  induction ms as [|m ms IH]; intros sd d; cbn [statement_inner]; [now left|].
  destruct (search true DATE_RE _) as [dm|] eqn:E1.
  - intros H. inversion H; subst d. right. exists m. split; [now left|]. split.
    + now apply window_match_in_window in E1.
    + eapply date_found; [apply DATE_RE_digit | exact E1].
  - destruct (search false date_range_re _) as [dm2|] eqn:E2.
    + intros H. inversion H; subst d. right. exists m. split; [now left|]. split.
      * now apply window_match_in_window in E2.
      * eapply date_found; [apply date_range_digit | exact E2].
    + intros H. apply IH in H. destruct H as [H | (m' & Hin & H)]; [now left|].
      right. exists m'. split; [now right | exact H].
Qed.

Lemma statement_outer_spec (text lower : str) (pats : list regex) : forall sd d,
  statement_outer text lower sd pats = Some d ->
  sd = Some d \/
  exists pat m, In pat pats /\ In m (finditer false pat lower) /\
    is_infix d (PyStr.slice text (m_end m) (m_end m + 140)) /\ has_digit d = true.
Proof.
  induction pats as [|pat pats IH]; intros sd d; cbn [statement_outer]; [now left|].
  destruct (PyStr.truthy (statement_inner text sd (finditer false pat lower))).
  - intros H. apply statement_inner_spec in H. destruct H as [H | (m & Hin & H)]; [now left|].
    right. exists pat, m. split; [now left|]. split; assumption.
  - intros H. apply IH in H. destruct H as [H | (pat' & m & Hp & H)].
    + apply statement_inner_spec in H. destruct H as [H | (m & Hin & H)]; [now left|].
      right. exists pat, m. split; [now left|]. split; assumption.
    + right. exists pat', m. split; [now right | exact H].
Qed.





(** ** The cardholder name *)

Lemma lstrip_stops (s : str) : stops is_space (PyStr.lstrip s) = true.
Proof.
  induction s as [|c s IH]; [reflexivity|]. cbn [PyStr.lstrip].
  destruct (is_space c) eqn:E; [exact IH|]. cbn [stops]. now rewrite E.
Qed.

Lemma lstrip_snoc (a : str) (c : char) :
  is_space c = false -> PyStr.lstrip (a ++ [c]) = PyStr.lstrip a ++ [c].
Proof.
  intros Hc. induction a as [|x a IH]; cbn [app PyStr.lstrip]; [now rewrite Hc|].
  destruct (is_space x); [exact IH | reflexivity].
Qed.

Lemma rstrip_cons (c : char) (u : str) :
  is_space c = false -> PyStr.rstrip (c :: u) = c :: PyStr.rstrip u.
Proof.
  intros Hc. unfold PyStr.rstrip. cbn [rev]. rewrite lstrip_snoc by exact Hc.
  now rewrite rev_unit.
Qed.

Lemma strip_cons (c : char) (u : str) :
  is_space c = false -> PyStr.strip (c :: u) = c :: PyStr.rstrip u.
Proof.
  intros Hc. unfold PyStr.strip. cbn [PyStr.lstrip]. rewrite Hc. now apply rstrip_cons.
Qed.

Lemma rstrip_prefix (u : str) : exists b, u = PyStr.rstrip u ++ b.
Proof.
  destruct (lstrip_suffix (rev u)) as (a & Ha). exists (rev a).
  unfold PyStr.rstrip. rewrite <- rev_app_distr, <- Ha. symmetry. apply rev_involutive.
Qed.

Lemma strip_ends (s : str) :
  stops is_space (PyStr.strip s) = true /\ stops is_space (rev (PyStr.strip s)) = true.
Proof.
  split.
  - unfold PyStr.strip. pose proof (lstrip_stops s) as H.
    destruct (PyStr.lstrip s) as [|c u]; [reflexivity|]. cbn [stops] in H.
    destruct (is_space c) eqn:E; [discriminate H|].
    rewrite rstrip_cons by exact E. cbn [stops]. now rewrite E.
  - unfold PyStr.strip, PyStr.rstrip. rewrite rev_involutive. apply lstrip_stops.
Qed.

Lemma upper_not_space (c : char) : is_upper c = true -> is_space c = false.
Proof.
  unfold is_upper, in_range. intros H. apply andb_prop in H. destruct H as [H1 H2].
  apply N.leb_le in H1. apply N.leb_le in H2. apply letter_not_space. lia.
Qed.

(** A capture of the name pattern: a capital, then 2 to 100 characters
    among capitals, whitespace, point and hyphen. *)
Lemma name_shape_chars g cs cs' :
  Sem false name_shape g cs cs' ->
  exists c u, g = c :: u /\ is_upper c = true /\ forallb name_char u = true /\
              (2 <= List.length u <= 100)%nat.
Proof.
  intros (w1 & w2 & cs1 & -> & (c & -> & Hc & _) & H2).
  apply Sem_rep_set in H2. destruct H2 as (Hf & Hlo & Hhi & _). cbn [within] in Hhi.
  exists c, w2. split; [reflexivity|]. split; [|split; [|lia]].
  - unfold set_eq, set_has in Hc. cbn [existsb item_has cr] in Hc.
    rewrite orb_false_r in Hc. exact Hc.
  - apply forallb_forall. intros x Hx. eapply Forall_forall in Hf; [|exact Hx]. exact Hf.
Qed.

Lemma name_re_capture m s a :
  lies_at false m name_re s a ->
  exists g cs cs', group m 1 = Some g /\ Sem false name_shape g cs cs'.
Proof.
  intros (_ & HS & _).
  destruct HS as (w1 & w2 & cs1 & _ & _ & w3 & w4 & cs2 & _ & _ & w5 & w6 & cs3 & _ & _ &
                  w7 & w8 & cs4 & _ & _ & w9 & g & cs5 & _ & _ & cs6 & Hg & Hc).
  exists g, cs5, cs6. unfold group. rewrite Hc. split; [reflexivity | exact Hg].
Qed.

Lemma customer_name_re_capture m s a :
  lies_at false m customer_name_re s a ->
  exists g cs cs', group m 1 = Some g /\ Sem false name_shape g cs cs'.
Proof.
  intros (_ & HS & _).
  destruct HS as (w1 & w2 & cs1 & _ & _ & w3 & w4 & cs2 & _ & _ & w5 & w6 & cs3 & _ & _ &
                  w7 & w8 & cs4 & _ & _ & w9 & w10 & cs5 & _ & _ &
                  w11 & w12 & cs6 & _ & _ & w13 & g & cs7 & _ & _ & cs8 & Hg & Hc).
  exists g, cs7, cs8. unfold group. rewrite Hc. split; [reflexivity | exact Hg].
Qed.

Lemma captured_name (m : mobj) :
  (exists g cs cs', group m 1 = Some g /\ Sem false name_shape g cs cs') ->
  exists c u, group1_stripped m = Ok (Some (c :: PyStr.rstrip u)) /\
              is_upper c = true /\ forallb name_char u = true /\
              (List.length u <= 100)%nat.
Proof.
  intros (g & cs & cs' & Hg & HS). apply name_shape_chars in HS.
  destruct HS as (c & u & -> & Hc & Hu & Hl). exists c, u.
  unfold group1_stripped. rewrite Hg, strip_cons by now apply upper_not_space.
  repeat split; [assumption | assumption | lia].
Qed.

Lemma labelled_name_value text :
  is_some (search false name_re text) || is_some (search false customer_name_re text) = true ->
  exists c u, find_cardholder_name text = Ok (Some (c :: PyStr.rstrip u)) /\
              is_upper c = true /\ forallb name_char u = true /\
              (List.length u <= 100)%nat.
Proof.
  intros H. unfold find_cardholder_name.
  destruct (search false name_re text) as [nm|] eqn:E1.
  - apply search_sound in E1. destruct E1 as (a & _ & E1).
    apply name_re_capture, captured_name in E1.
    destruct E1 as (c & u & -> & Hrest). exists c, u. split; [reflexivity | exact Hrest].
  - destruct (search false customer_name_re text) as [nm|] eqn:E2; [|discriminate H].
    apply search_sound in E2. destruct E2 as (a & _ & E2).
    apply customer_name_re_capture, captured_name in E2.
    destruct E2 as (c & u & -> & Hrest). exists c, u. split; [reflexivity | exact Hrest].
Qed.

Lemma rstrip_chars (f : char -> bool) (u : str) :
  forallb f u = true -> forallb f (PyStr.rstrip u) = true.
Proof.
  intros H. destruct (rstrip_prefix u) as (b & Hb). rewrite Hb in H.
  rewrite forallb_app in H. apply andb_prop in H. tauto.
Qed.

Lemma rstrip_length (u : str) : (List.length (PyStr.rstrip u) <= List.length u)%nat.
Proof.
  destruct (rstrip_prefix u) as (b & Hb). rewrite Hb at 2. rewrite length_app. lia.
Qed.



Lemma scan_lines_spec (lines : list str) (l : str) :
  scan_lines lines = Some l ->
  exists line, In line lines /\ l = PyStr.strip line /\ l <> [] /\ name_line_ok l = true.
Proof.
  induction lines as [|line lines IH]; cbn [scan_lines]; [discriminate|].
  assert (Hlater : scan_lines lines = Some l ->
                   exists line0, In line0 (line :: lines) /\ l = PyStr.strip line0 /\
                                 l <> [] /\ name_line_ok l = true).
  { intros H. destruct (IH H) as (line0 & Hin & Hrest). exists line0.
    split; [now right | exact Hrest]. }
  destruct (PyStr.strip line) as [|c t] eqn:El; [exact Hlater|].
  destruct (is_some (search false digit (c :: t))); [exact Hlater|].
  destruct (name_line_ok (c :: t)) eqn:Eok; [|exact Hlater].
  intros H. inversion H; subst l. exists line.
  split; [now left|]. split; [now rewrite El|]. split; [discriminate | exact Eok].
Qed.

(** X12: the cardholder name, when present, is not empty and has no
    whitespace at either end. *)
Theorem cardholder_name_is_trimmed (text : str) (r : ExtractionResult) (name : str) :
  extract_datapoints_from_text text = Ok r ->
  cardholder_name r = Some name ->
  name <> [] /\ stops is_space name = true /\ stops is_space (rev name) = true.
Proof.
  intros H Hn. apply extract_fields in H. cbv zeta in H.
  destruct H as (_ & _ & _ & _ & H & _). rewrite Hn in H.
  destruct (is_some (search false name_re text)
            || is_some (search false customer_name_re text)) eqn:El.
  - apply labelled_name_value in El. destruct El as (c & u & Hv & Hc & _).
    rewrite Hv in H. inversion H; subst name.
    split; [discriminate|].
    rewrite <- (@strip_cons c u (@upper_not_space c Hc)). apply strip_ends.
  - apply orb_false_elim in El. destruct El as [E1 E2].
    unfold find_cardholder_name in H.
    destruct (search false name_re text); [discriminate E1|].
    destruct (search false customer_name_re text); [discriminate E2|].
    cbn [bind PyStr.truthy negb] in H.
    destruct (scan_lines (firstn 12 (PyStr.splitlines text))) as [l|] eqn:Es;
      [|discriminate].
    inversion H; subst l. apply scan_lines_spec in Es.
    destruct Es as (line & _ & -> & Hne & _). split; [exact Hne | apply strip_ends].
Qed.

Lemma cardholder_name_is_trimmed_witness :
  extract_datapoints_from_text (9 :: lit "  Asha Rao " ++ 10 :: lit "Card 1234")
  = Ok (mkResult (Some (lit "Asha Rao")) None None None (Some (lit "1234"))
          (mkCandidates [] [lit "123"; lit "4"])) /\
  cardholder_name
    (mkResult (Some (lit "Asha Rao")) None None None (Some (lit "1234"))
       (mkCandidates [] [lit "123"; lit "4"])) = Some (lit "Asha Rao") /\
  ((lit "Asha Rao" = [] -> False) /\
   stops is_space (lit "Asha Rao") = true /\
   stops is_space (rev (lit "Asha Rao")) = true).
Proof.
  assert (H : extract_datapoints_from_text (9 :: lit "  Asha Rao " ++ 10 :: lit "Card 1234")
              = Ok (mkResult (Some (lit "Asha Rao")) None None None (Some (lit "1234"))
                      (mkCandidates [] [lit "123"; lit "4"])))
    by (vm_compute; reflexivity).
  split; [exact H|]. split; [reflexivity|].
  exact (@cardholder_name_is_trimmed _ _ (lit "Asha Rao") H eq_refl).
Defined.

(** *** Lines and words keep to the characters of the text *)

Lemma flush_In (cur w : str) (acc : list str) :
  In w (PyStr.flush cur acc) -> w = rev cur \/ In w acc.
Proof.
  destruct cur as [|c cur]; cbn [PyStr.flush]; [now right|].
  intros [<- | H]; [now left | now right].
Qed.

Lemma split_aux_chars : forall s cur w,
  In w (PyStr.split_aux cur s) -> forall c, In c w -> In c cur \/ In c s.
Proof.
  induction s as [|x s IH]; intros cur w Hw c Hc; cbn [PyStr.split_aux] in Hw.
  - apply flush_In in Hw. destruct Hw as [-> | []]. left. now apply in_rev.
  - destruct (is_space x).
    + apply flush_In in Hw. destruct Hw as [-> | Hw]; [left; now apply in_rev|].
      destruct (IH _ _ Hw _ Hc) as [[] | H]. right. now right.
    + destruct (IH _ _ Hw _ Hc) as [[<- | H] | H].
      * right. now left.
      * now left.
      * right. now right.
Qed.

Lemma split_chars (s w : str) (c : char) : In w (PyStr.split s) -> In c w -> In c s.
Proof.
  intros Hw Hc. destruct (@split_aux_chars s [] w Hw c Hc) as [[] | H]. exact H.
Qed.

Lemma splitlines_aux_cons (cur : str) (c : char) (t : str) :
  PyStr.splitlines_aux cur (c :: t) =
  if c =? 13 then
    rev cur :: PyStr.splitlines_aux [] (if starts_with [10] t then tl t else t)
  else if is_linebreak c then rev cur :: PyStr.splitlines_aux [] t
  else PyStr.splitlines_aux (c :: cur) t.
Proof.
  cbn [PyStr.splitlines_aux]. destruct (c =? 13); [|reflexivity].
  destruct t as [|c' t']; [reflexivity|]. cbn [starts_with tl].
  destruct c' as [|p]; [reflexivity|].
  do 4 (destruct p as [p|p|]; try reflexivity).
Qed.

Lemma splitlines_aux_chars (n : nat) : forall s cur w,
  (List.length s <= n)%nat ->
  In w (PyStr.splitlines_aux cur s) -> forall c, In c w -> In c cur \/ In c s.
Proof.
  induction n as [|n IH]; intros s cur w Hn Hw c Hc.
  - destruct s; [|cbn in Hn; lia]. cbn [PyStr.splitlines_aux] in Hw.
    apply flush_In in Hw. destruct Hw as [-> | []]. left. now apply in_rev.
  - destruct s as [|x s].
    + cbn [PyStr.splitlines_aux] in Hw. apply flush_In in Hw.
      destruct Hw as [-> | []]. left. now apply in_rev.
    + rewrite splitlines_aux_cons in Hw. cbn [List.length] in Hn.
      destruct (x =? 13).
      * destruct Hw as [<- | Hw]; [left; now apply in_rev|]. right. right.
        assert (Hsub : forall y, In y (if starts_with [10] s then tl s else s) -> In y s).
        { destruct (starts_with [10] s); [|trivial]. destruct s; [trivial|].
          intros y Hy. now right. }
        assert (Hlen : (List.length (if starts_with [10%N] s then tl s else s) <= n)%nat).
        { destruct (starts_with [10] s); [|lia]. destruct s; cbn [tl List.length] in *; lia. }
        destruct (IH _ _ _ Hlen Hw _ Hc) as [[] | H]. now apply Hsub.
      * destruct (is_linebreak x).
        -- destruct Hw as [<- | Hw]; [left; now apply in_rev|].
           assert (Hlen : (List.length s <= n)%nat) by lia.
           destruct (IH _ _ _ Hlen Hw _ Hc) as [[] | H]. right. now right.
        -- assert (Hlen : (List.length s <= n)%nat) by lia.
           destruct (IH _ _ _ Hlen Hw _ Hc) as [[<- | H] | H].
           ++ right. now left.
           ++ now left.
           ++ right. now right.
Qed.

Lemma splitlines_chars (s line : str) (c : char) :
  In line (PyStr.splitlines s) -> In c line -> In c s.
Proof.
  intros Hl Hc.
  destruct (@splitlines_aux_chars (List.length s) s [] line (le_n _) Hl c Hc) as [[] | H].
  exact H.
Qed.

Lemma infix_chars (d s : str) (c : char) : is_infix d s -> In c d -> In c s.
Proof. intros (a & b & ->) H. apply in_or_app. right. apply in_or_app. now left. Qed.

Lemma firstn_In (A : Type) (n : nat) (l : list A) (x : A) : In x (firstn n l) -> In x l.
Proof. intros H. rewrite <- (firstn_skipn n l). apply in_or_app. now left. Qed.

(** *** No capital letter, no name *)

Lemma capitalised_word (w : str) :
  is_some (match_ false capitalised_re w) = true ->
  exists c, In c w /\ is_upper c = true.
Proof.
  unfold match_. destruct (match_here false capitalised_re None w 0) as [m|] eqn:E;
    [|discriminate].
  intros _. apply match_here_sound in E. destruct E as (_ & Hs & HS & _).
  destruct HS as (w1 & w2 & cs1 & Hw & (-> & _) & w3 & w4 & cs2 & -> & (c & -> & Hc & _) & _).
  exists c. split.
  - rewrite Hs, Hw. cbn [app]. now left.
  - unfold set_eq, set_has in Hc. cbn [existsb item_has cr] in Hc.
    rewrite orb_false_r in Hc. exact Hc.
Qed.

Lemma name_line_capital (l : str) :
  name_line_ok l = true -> exists c, In c l /\ is_upper c = true.
Proof.
  unfold name_line_ok. intros H.
  apply andb_prop in H. destruct H as [H _].
  apply andb_prop in H. destruct H as [_ H]. apply Nat.leb_le in H.
  destruct (filter (fun w => is_some (match_ false capitalised_re w)) (PyStr.split l))
    as [|w ws] eqn:Ef; [cbn in H; lia|].
  assert (Hin : In w (w :: ws)) by now left.
  rewrite <- Ef in Hin. apply filter_In in Hin. destruct Hin as [Hw Hcap].
  apply capitalised_word in Hcap. destruct Hcap as (c & Hc & Hu).
  exists c. split; [|exact Hu]. eapply split_chars; eassumption.
Qed.

Lemma no_capital (text : str) (c : char) :
  forallb (fun x => negb (is_upper x)) text = true -> In c text -> is_upper c = true ->
  False.
Proof.
  intros H Hc Hu. eapply forallb_forall in H; [|exact Hc]. rewrite Hu in H. discriminate.
Qed.

Lemma no_capital_no_match (x : string) (r : regex) (text : str) (c : char) :
  mentions (lit x) r -> In c (lit x) -> is_upper c = true ->
  forallb (fun x => negb (is_upper x)) text = true ->
  search false r text = None.
Proof.
  intros Hr Hc Hu Ht. destruct (search false r text) as [m|] eqn:E; [|reflexivity].
  exfalso. apply search_sound in E. destruct E as (a & _ & Hs & HS & _).
  apply Hr in HS. apply (@no_capital text c Ht); [|exact Hu].
  eapply infix_chars; [|eapply infix_chars; [exact HS | exact Hc]].
  exists a, (rest (m_tail m)). exact Hs.
Qed.

(** X13: a text with no capital letter [A-Z] has no cardholder name. *)
Theorem no_name_without_capital (text : str) (r : ExtractionResult) :
  forallb (fun c => negb (is_upper c)) text = true ->
  extract_datapoints_from_text text = Ok r ->
  cardholder_name r = None.
Proof.
  intros Ht H. apply extract_fields in H. cbv zeta in H.
  destruct H as (_ & _ & _ & _ & H & _). unfold find_cardholder_name in H.
  rewrite (@no_capital_no_match "Name" name_re text 78) in H; try assumption;
    [|apply mentions_later, mentions_here | now left | reflexivity].
  rewrite (@no_capital_no_match "Customer" customer_name_re text 67) in H; try assumption;
    [|apply mentions_later, mentions_here | now left | reflexivity].
  cbn [bind PyStr.truthy negb] in H.
  destruct (scan_lines (firstn 12 (PyStr.splitlines text))) as [l|] eqn:Es;
    [|now inversion H].
  exfalso. apply scan_lines_spec in Es. destruct Es as (line & Hin & -> & _ & Hok).
  apply name_line_capital in Hok. destruct Hok as (c & Hc & Hu).
  apply (@no_capital text c Ht); [|exact Hu].
  eapply splitlines_chars; [eapply firstn_In; exact Hin|].
  eapply infix_chars; [apply strip_infix | exact Hc].
Qed.

Lemma no_name_without_capital_witness :
  forallb (fun c => negb (is_upper c)) (lit "name: john smith" ++ 10 :: lit "asha rao") = true /\
  extract_datapoints_from_text (lit "name: john smith" ++ 10 :: lit "asha rao")
  = Ok nothing_found /\
  cardholder_name nothing_found = None.
Proof.
  assert (H : extract_datapoints_from_text (lit "name: john smith" ++ 10 :: lit "asha rao")
              = Ok nothing_found) by (vm_compute; reflexivity).
  split; [vm_compute; reflexivity|]. split; [exact H|].
  apply (@no_name_without_capital (lit "name: john smith" ++ 10 :: lit "asha rao"));
    [vm_compute; reflexivity | exact H].
Defined.



(** ** The first page of a PDF *)

Lemma longer_than_length (n : nat) (text : str) :
  longer_than n text = true -> (n < List.length (PyStr.strip text))%nat /\ text <> [].
Proof.
  unfold longer_than. intros H. apply andb_prop in H. destruct H as [H1 H2].
  apply Nat.ltb_lt in H2. split; [exact H2|]. destruct text; [discriminate H1 | discriminate].
Qed.

Lemma first_page_silent (pdf : PDF) : ~ In Attempting_ocr (snd (first_page pdf)).
Proof.
  unfold first_page. destruct (pages pdf) as [[|page ps]|e]; try (intros []).
  destruct (extract_text page) as [t|e]; [|intros []].
  destruct (longer_than 40 (or_empty t)); cbn [snd]; [intros []|].
  intros [Hin | []]. discriminate Hin.
Qed.

(** X15: when the OCR fallback is switched off, or its libraries could not
    be imported, neither of them is called: the text and the messages do not
    depend on what they would do, and no OCR attempt is announced. *)
Theorem ocr_disabled_never_consulted (w : World) (g : ModuleState) (file_path : str)
  (ocr_fallback : bool) (ocr : str -> outcome (list Image)) :
  ocr_fallback && OCR_AVAILABLE g = false ->
  extract_first_page_text (mkWorld (pdfplumber_open w) ocr) g file_path ocr_fallback =
  extract_first_page_text w g file_path ocr_fallback /\
  ~ In Attempting_ocr (snd (extract_first_page_text w g file_path ocr_fallback)).
Proof.
  intros Hoff. unfold extract_first_page_text, direct_extraction. cbn [pdfplumber_open].
  assert (Hstep : forall text out,
            ocr_fallback_step (mkWorld (pdfplumber_open w) ocr) g file_path ocr_fallback text out
            = ocr_fallback_step w g file_path ocr_fallback text out /\
            (~ In Attempting_ocr out ->
             ~ In Attempting_ocr
                 (snd (ocr_fallback_step w g file_path ocr_fallback text out)))).
  { intros text out. unfold ocr_fallback_step. rewrite Hoff.
    split; [reflexivity|]. intros Hout.
    destruct ocr_fallback; cbn [snd]; [|exact Hout].
    intros Hin. apply in_app_or in Hin. destruct Hin as [Hin | [Hin | []]];
      [now apply Hout | discriminate Hin]. }
  destruct (pdfplumber_open w file_path) as [pdf|e].
  - pose proof (first_page_silent pdf) as Hfirst.
    destruct (first_page pdf) as [how out]. cbn [snd] in Hfirst.
    assert (Hout : ~ In Attempting_ocr (Processing file_path :: out)).
    { intros [Hin | Hin]; [discriminate Hin | now apply Hfirst]. }
    assert (Herr : forall e, ~ In Attempting_ocr ((Processing file_path :: out) ++ [Direct_error e])).
    { intros e Hin. apply in_app_or in Hin. destruct Hin as [Hin | [Hin | []]];
        [now apply Hout | discriminate Hin]. }
    destruct (close pdf) as [u|e].
    + destruct how as [text|text|e].
      * split; [reflexivity | exact Hout].
      * destruct (Hstep text (Processing file_path :: out)) as [H1 H2].
        split; [exact H1 | now apply H2].
      * destruct (Hstep [] ((Processing file_path :: out) ++ [Direct_error e])) as [H1 H2].
        split; [exact H1 | now apply H2].
    + destruct (Hstep [] ((Processing file_path :: out) ++ [Direct_error e])) as [H1 H2].
      split; [exact H1 | now apply H2].
  - destruct (Hstep [] ([Processing file_path] ++ [Direct_error e])) as [H1 H2].
    split; [exact H1|]. apply H2. intros [Hin | [Hin | []]]; discriminate Hin.
Qed.

Lemma ocr_disabled_never_consulted_witness :
  true && OCR_AVAILABLE (mkModuleState false) = false /\
  extract_first_page_text
    (mkWorld (pdfplumber_open scanned_file) (fun _ => Throws (lit "no poppler")))
    (mkModuleState false) (lit "a.pdf") true
  = extract_first_page_text scanned_file (mkModuleState false) (lit "a.pdf") true /\
  ~ In Attempting_ocr
      (snd (extract_first_page_text scanned_file (mkModuleState false) (lit "a.pdf") true)).
Proof.
  split; [reflexivity|].
  exact (@ocr_disabled_never_consulted scanned_file (mkModuleState false) (lit "a.pdf") true
           (fun _ => Throws (lit "no poppler")) eq_refl).
Defined.

Lemma first_page_returned (pdf : PDF) (t : str) (out : list printed) :
  first_page pdf = (Returned t, out) ->
  exists page ps, pages pdf = Returns (page :: ps) /\
                  extract_text page = Returns (Some t) /\
                  longer_than 40 t = true /\ out = [].
Proof.
  unfold first_page. destruct (pages pdf) as [[|page ps]|e] eqn:Ep; try discriminate.
  destruct (extract_text page) as [o|e] eqn:Et; [|discriminate].
  destruct (longer_than 40 (or_empty o)) eqn:El; [|discriminate].
  intros H. inversion H; subst. exists page, ps.
  destruct o as [s|]; [|discriminate El]. cbn [or_empty] in *. now repeat split.
Qed.

Lemma first_page_completed (pdf : PDF) (t : str) (out : list printed) :
  first_page pdf = (Completed t, out) -> t <> [] ->
  exists page ps, pages pdf = Returns (page :: ps) /\ extract_text page = Returns (Some t).
Proof.
  unfold first_page. destruct (pages pdf) as [[|page ps]|e] eqn:Ep; try discriminate.
  destruct (extract_text page) as [o|e] eqn:Et; [|discriminate].
  destruct (longer_than 40 (or_empty o)); [discriminate|].
  intros H Hne. inversion H; subst. exists page, ps.
  destruct o as [s|]; [|now cbn in Hne]. now split.
Qed.

Lemma ocr_extraction_some (w : World) (file_path t : str) (out : list printed) :
  ocr_extraction w file_path = (Some t, out) -> ocr_text_of w file_path t.
Proof.
  unfold ocr_extraction, ocr_text_of.
  destruct (convert_from_path w file_path) as [[|image imgs]|e] eqn:Ec; try discriminate.
  destruct (image_to_string image) as [ocr_text|e] eqn:Ei; [|discriminate].
  destruct (longer_than 20 ocr_text) eqn:El; [|discriminate].
  intros H. inversion H; subst. exists image, imgs.
  apply longer_than_length in El. now repeat split.
Qed.

Lemma ocr_fallback_step_origin (w : World) (g : ModuleState) (file_path : str)
  (ocr_fallback : bool) (text : str) (out : list printed) :
  let t := fst (ocr_fallback_step w g file_path ocr_fallback text out) in
  t = text \/
  (ocr_fallback = true /\ OCR_AVAILABLE g = true /\ ocr_text_of w file_path t).
Proof.
  cbv zeta. unfold ocr_fallback_step.
  destruct ocr_fallback; cbn [andb]; [|now left].
  destruct (OCR_AVAILABLE g); [|now left].
  destruct (ocr_extraction w file_path) as [[t|] out'] eqn:E; [|now left].
  right. cbn [fst]. repeat split. now apply ocr_extraction_some in E.
Qed.

(** X16: a text that is returned and not empty is the first page as
    [pdfplumber] gave it, the PDF having been closed without an exception,
    or, with the fallback requested and available, the OCR text of the first
    image, longer than 20 characters once stripped. *)
Theorem returned_text_origin (w : World) (g : ModuleState) (file_path : str)
  (ocr_fallback : bool) :
  let t := fst (extract_first_page_text w g file_path ocr_fallback) in
  t <> [] ->
  direct_text w file_path t \/
  (ocr_fallback = true /\ OCR_AVAILABLE g = true /\ ocr_text_of w file_path t).
Proof.
  cbv zeta. unfold extract_first_page_text, direct_extraction.
  destruct (pdfplumber_open w file_path) as [pdf|e] eqn:Eo.
  - destruct (first_page pdf) as [how out] eqn:Ef.
    destruct (close pdf) as [[]|e] eqn:Ec.
    + destruct how as [text|text|e].
      * cbn [fst]. intros _. left. apply first_page_returned in Ef.
        destruct Ef as (page & ps & Hp & Ht & _). exists pdf, page, ps. now repeat split.
      * intros Hne.
        destruct (ocr_fallback_step_origin w g file_path ocr_fallback text
                    (Processing file_path :: out)) as [H | H]; [|now right].
        left. rewrite H in *. apply first_page_completed in Ef; [|exact Hne].
        destruct Ef as (page & ps & Hp & Ht). exists pdf, page, ps. now repeat split.
      * intros Hne.
        destruct (ocr_fallback_step_origin w g file_path ocr_fallback []
                    ((Processing file_path :: out) ++ [Direct_error e])) as [H | H];
          [contradiction | now right].
    + intros Hne.
      destruct (ocr_fallback_step_origin w g file_path ocr_fallback []
                  ((Processing file_path :: out) ++ [Direct_error e])) as [H | H];
        [contradiction | now right].
  - intros Hne.
    destruct (ocr_fallback_step_origin w g file_path ocr_fallback []
                ((Processing file_path :: []) ++ [Direct_error e])) as [H | H];
      [contradiction | now right].
Qed.

Lemma returned_text_origin_witness :
  fst (extract_first_page_text scanned_file (mkModuleState true) (lit "a.pdf") true)
  = scanned_text /\
  (direct_text scanned_file (lit "a.pdf")
     (fst (extract_first_page_text scanned_file (mkModuleState true) (lit "a.pdf") true)) \/
   (true = true /\ OCR_AVAILABLE (mkModuleState true) = true /\
    ocr_text_of scanned_file (lit "a.pdf")
      (fst (extract_first_page_text scanned_file (mkModuleState true) (lit "a.pdf") true)))).
Proof.
  split; [reflexivity|].
  apply (@returned_text_origin scanned_file (mkModuleState true) (lit "a.pdf") true).
  discriminate.
Defined.

(** X17: when the direct extraction raises (opening the file, reading its
    pages, a PDF without pages, extracting the text or closing the PDF) and
    the OCR fallback is off or unavailable, nothing is parsed: the result is
    [None], also when a text had been extracted before the exception. *)
Theorem failed_extraction_gives_nothing (w : World) (g : ModuleState) (file_path : str)
  (ocr_fallback : bool) (e : str) :
  fst (direct_extraction w file_path) = Raised e ->
  ocr_fallback && OCR_AVAILABLE g = false ->
  parse_pdf_page_one_and_extract w g file_path ocr_fallback =
  (Ok None,
   Processing file_path :: snd (direct_extraction w file_path) ++
   [Direct_error e] ++ (if ocr_fallback then [Ocr_unavailable] else []) ++ [No_text]).
Proof.
  intros Hd Hoff. unfold parse_pdf_page_one_and_extract, extract_first_page_text.
  destruct (direct_extraction w file_path) as [how out]. cbn [fst snd] in *. subst how.
  unfold ocr_fallback_step. rewrite Hoff.
  destruct ocr_fallback; cbn [or_empty PyStr.truthy negb app]; f_equal;
    rewrite <- ?app_assoc; reflexivity.
Qed.

Lemma failed_extraction_gives_nothing_witness :
  fst (direct_extraction failing_file (lit "a.pdf")) = Raised (lit "I/O error") /\
  true && OCR_AVAILABLE (mkModuleState false) = false /\
  parse_pdf_page_one_and_extract failing_file (mkModuleState false) (lit "a.pdf") true =
  (Ok None,
   Processing (lit "a.pdf") :: snd (direct_extraction failing_file (lit "a.pdf")) ++
   [Direct_error (lit "I/O error")] ++ [Ocr_unavailable] ++ [No_text]).
Proof.
  split; [reflexivity|]. split; [reflexivity|].
  exact (@failed_extraction_gives_nothing failing_file (mkModuleState false) (lit "a.pdf")
           true (lit "I/O error") eq_refl eq_refl).
Defined.

(** X18: [parse_pdf_page_one_and_extract] raises nothing; it returns [None]
    exactly when the extracted text is empty, and otherwise the datapoints
    of that text. *)
Theorem parse_returns_datapoints_of_text (w : World) (g : ModuleState) (file_path : str)
  (ocr_fallback : bool) :
  let text := fst (extract_first_page_text w g file_path ocr_fallback) in
  exists res,
    fst (parse_pdf_page_one_and_extract w g file_path ocr_fallback) = Ok res /\
    (res = None <-> text = []) /\
    (forall d, res = Some d -> extract_datapoints_from_text text = Ok d).
Proof.
  cbv zeta. unfold parse_pdf_page_one_and_extract.
  destruct (extract_first_page_text w g file_path ocr_fallback) as [text out].
  cbn [fst]. destruct text as [|c text]; cbn [PyStr.truthy negb].
  - exists None. cbn [fst]. split; [reflexivity|]. split; [tauto | discriminate].
  - destruct (extract_never_raises (c :: text)) as (d & Hd). rewrite Hd.
    exists (Some d). cbn [fst]. split; [reflexivity|]. split.
    + split; discriminate.
    + intros d' H. now inversion H.
Qed.

(** X19: a first page whose text, once stripped, has more than 40 characters
    is parsed as it is, whatever the OCR setting: nothing but the name of
    the file and the report of the datapoints is printed. *)
Theorem readable_page_is_parsed (w : World) (g : ModuleState) (file_path : str)
  (ocr_fallback : bool) (pdf : PDF) (page : Page) (ps : list Page) (t : str) :
  pdfplumber_open w file_path = Returns pdf ->
  pages pdf = Returns (page :: ps) ->
  extract_text page = Returns (Some t) ->
  close pdf = Returns tt ->
  (40 < List.length (PyStr.strip t))%nat ->
  extract_first_page_text w g file_path ocr_fallback = (t, [Processing file_path]) /\
  exists d, extract_datapoints_from_text t = Ok d /\
    parse_pdf_page_one_and_extract w g file_path ocr_fallback =
    (Ok (Some d), Processing file_path :: report d).
Proof.
  intros Ho Hp Ht Hc Hl.
  assert (Hne : exists c u, t = c :: u).
  { destruct t as [|c u]; [cbn in Hl; lia | eauto]. }
  assert (E : extract_first_page_text w g file_path ocr_fallback = (t, [Processing file_path])).
  { unfold extract_first_page_text, direct_extraction, first_page.
    rewrite Ho, Hp, Ht, Hc. cbn [or_empty]. unfold longer_than.
    rewrite (proj2 (Nat.ltb_lt _ _) Hl). destruct Hne as (c & u & ->). reflexivity. }
  split; [exact E|]. destruct (extract_never_raises t) as (d & Hd). exists d.
  split; [exact Hd|]. unfold parse_pdf_page_one_and_extract. rewrite E, Hd.
  destruct Hne as (c & u & ->). reflexivity.
Qed.

Lemma readable_page_is_parsed_witness :
  pdfplumber_open readable_file (lit "a.pdf")
  = Returns (mkPDF (Returns [mkPage (Returns (Some statement_page))]) (Returns tt)) /\
  (40 < List.length (PyStr.strip statement_page))%nat /\
  extract_first_page_text readable_file (mkModuleState true) (lit "a.pdf") true
  = (statement_page, [Processing (lit "a.pdf")]) /\
  exists d, extract_datapoints_from_text statement_page = Ok d /\
    parse_pdf_page_one_and_extract readable_file (mkModuleState true) (lit "a.pdf") true =
    (Ok (Some d), Processing (lit "a.pdf") :: report d).
Proof.
  assert (Hl : (40 < List.length (PyStr.strip statement_page))%nat)
    by (vm_compute; lia).
  split; [reflexivity|]. split; [exact Hl|].
  exact (@readable_page_is_parsed readable_file (mkModuleState true) (lit "a.pdf") true
           (mkPDF (Returns [mkPage (Returns (Some statement_page))]) (Returns tt))
           (mkPage (Returns (Some statement_page))) [] statement_page
           eq_refl eq_refl eq_refl eq_refl Hl).
Defined.

(** X20: with [--no-ocr] the result and the messages depend neither on the
    OCR libraries nor on their having been imported. *)
Theorem no_ocr_flag_disables_ocr (w : World) (g g' : ModuleState) (args : Args)
  (ocr : str -> outcome (list Image)) :
  no_ocr args = true ->
  main (mkWorld (pdfplumber_open w) ocr) g' args = main w g args.
Proof.
  intros H. unfold main, parse_pdf_page_one_and_extract, extract_first_page_text,
    direct_extraction, ocr_fallback_step. rewrite H. reflexivity.
Qed.

Lemma no_ocr_flag_disables_ocr_witness :
  no_ocr (mkArgs (lit "a.pdf") true) = true /\
  main (mkWorld (pdfplumber_open scanned_file) (fun _ => Throws (lit "no poppler")))
    (mkModuleState false) (mkArgs (lit "a.pdf") true)
  = main scanned_file (mkModuleState true) (mkArgs (lit "a.pdf") true).
Proof.
  split; [reflexivity|].
  exact (@no_ocr_flag_disables_ocr scanned_file (mkModuleState true) (mkModuleState false)
           (mkArgs (lit "a.pdf") true) (fun _ => Throws (lit "no poppler")) eq_refl).
Defined.
